(** * Live Azaan: a shallow embedding of the streaming core

    The development follows the Python sources file by file:

    - [Py]             the fragment of Python the sources rely on
                       (exceptions, [str.strip], [int], slices, [range]);
    - [Priority]       priority.py
    - [NoiseReduction] noise_reduction.py
    - [OfflinePlayer]  offline_player.py
    - [StreamSender]   stream_sender.py
    - [Main]           main.py (the listener and broadcaster entry points)

    Methods that mutate [self] are state transformers in the monad
    [Py.Method]; a raised exception is a value, and the mutations made
    before the raise are kept, as in Python. *)

(** Further modules cover the code around the streaming core:

    - [Registry]     call sequences on the registry of priority.py
    - [StreamTrace]  reading the trace of the sender's worker
    - [OfflineLog]   reading the call log of the offline player
    - [PyVal]        Python values of JSON documents
    - [Masjid]       masjid.py: the store format of the priority list
    - [Shell]        main.py: the settings screen and notifications
    - [Broadcast]    the states [start_azaan] and [stop_azaan] leave

    Definitions come first; the properties follow, one module of
    proofs per part. *)

From Stdlib Require Import ZArith List String Ascii Bool Lia.
From Stdlib Require Import Strings.Byte.
From Stdlib Require Import Sorting.Permutation Sorting.Sorted.
Import ListNotations.

Local Open Scope string_scope.
Local Open Scope list_scope.
Local Open Scope Z_scope.

(* ===================================================================== *)
(** * Python prelude *)
(* ===================================================================== *)

Module Py.

(** Exceptions, with the text [str(exc)] yields.  [FileNotFoundError] is a
    subclass of [OSError]; every other class the sources never catch by name
    is [OtherError]. *)
Inductive exn : Type :=
| ValueError (msg : string)
| OSError (msg : string)
| FileNotFoundError (msg : string)
| AudioopError (msg : string)
| AuthError (msg : string)
| MasjidError (msg : string)
| OtherError (msg : string).

Definition str_of_exn (e : exn) : string :=
  match e with
  | ValueError m | OSError m | FileNotFoundError m | AudioopError m
  | AuthError m | MasjidError m | OtherError m => m
  end.

Definition isinstance_ValueError (e : exn) : bool :=
  match e with ValueError _ => true | _ => false end.

Definition isinstance_OSError (e : exn) : bool :=
  match e with OSError _ | FileNotFoundError _ => true | _ => false end.


Inductive result (A : Type) : Type :=
| Ok (a : A)
| Raise (e : exn).

Arguments Ok {A} a.
Arguments Raise {A} e.

(** A method body: runs on the object state, returns a value or raises, and
    leaves the (possibly mutated) state behind in both cases. *)
Definition Method (S A : Type) : Type := S -> result A * S.

Definition ret {S A} (a : A) : Method S A := fun s => (Ok a, s).

Definition raise {S A} (e : exn) : Method S A := fun s => (Raise e, s).

Definition bind {S A B} (c : Method S A) (k : A -> Method S B) : Method S B :=
  fun s =>
    match c s with
    | (Ok a, s') => k a s'
    | (Raise e, s') => (Raise e, s')
    end.

Definition get {S} : Method S S := fun s => (Ok s, s).

Definition modify {S} (f : S -> S) : Method S unit := fun s => (Ok tt, f s).

(** [lift r]: the outcome of a call that does not touch [self]. *)
Definition lift {S A} (r : result A) : Method S A := fun s => (r, s).

(** [try: body  except (classes) as exc: handler exc]. *)
Definition try_except {S A} (body : Method S A) (classes : exn -> bool)
    (handler : exn -> Method S A) : Method S A :=
  fun s =>
    match body s with
    | (Ok a, s') => (Ok a, s')
    | (Raise e, s') => if classes e then handler e s' else (Raise e, s')
    end.

Definition eval {S A} (c : Method S A) (s : S) : result A := fst (c s).

Definition exec {S A} (c : Method S A) (s : S) : S := snd (c s).

Declare Scope py_scope.
Delimit Scope py_scope with py.

Notation "x <- c ;; k" := (bind c (fun x => k))
  (at level 61, c at next level, right associativity) : py_scope.

Notation "c ;;; k" := (bind c (fun _ => k))
  (at level 61, right associativity) : py_scope.

(** ** Strings

    Strings are byte strings; the functions below are the builtins on ASCII
    text, which is what the entry fields of the application carry. *)

(** [str.isspace] on ASCII: tab to carriage return, the four separators
    0x1c-0x1f and the space. *)
Definition isspace (c : ascii) : bool :=
  let n := nat_of_ascii c in
  ((9 <=? n) && (n <=? 13) || (28 <=? n) && (n <=? 32))%nat.

Fixpoint lstrip (s : string) : string :=
  match s with
  | String c t => if isspace c then lstrip t else s
  | EmptyString => EmptyString
  end.

Fixpoint rstrip (s : string) : string :=
  match s with
  | String c t =>
      match rstrip t with
      | EmptyString => if isspace c then EmptyString else String c EmptyString
      | t' => String c t'
      end
  | EmptyString => EmptyString
  end.

(** [s.strip()] *)
Definition strip (s : string) : string := rstrip (lstrip s).

Definition isdigit (c : ascii) : bool :=
  let n := nat_of_ascii c in ((48 <=? n) && (n <=? 57))%nat.

(** Decimal digits with single underscores between digits. *)
Fixpoint int_digits (acc : Z) (after_digit : bool) (s : string) : option Z :=
  match s with
  | EmptyString => if after_digit then Some acc else None
  | String c t =>
      if isdigit c
      then int_digits (10 * acc + Z.of_nat (nat_of_ascii c - 48)) true t
      else if Ascii.eqb c "_"
      then if after_digit then int_digits acc false t else None
      else None
  end.

(** [int(s)] for a [str]: surrounding whitespace is dropped, then an optional
    sign and the digits; anything else is a [ValueError]. *)
Definition int (s : string) : result Z :=
  let invalid :=
    Raise (ValueError ("invalid literal for int() with base 10: '" ++ s ++ "'")) in
  match strip s with
  | String "-" t =>
      match int_digits 0 false t with Some z => Ok (- z) | None => invalid end
  | String "+" t =>
      match int_digits 0 false t with Some z => Ok z | None => invalid end
  | t =>
      match int_digits 0 false t with Some z => Ok z | None => invalid end
  end.

(** [s.lower()] *)
Definition lower_char (c : ascii) : ascii :=
  let n := nat_of_ascii c in
  if ((65 <=? n) && (n <=? 90))%nat then ascii_of_nat (n + 32) else c.

Fixpoint lower (s : string) : string :=
  match s with
  | EmptyString => EmptyString
  | String c t => String (lower_char c) (lower t)
  end.

(** [bytes] objects. *)
Definition bytes : Type := list byte.

Definition len {A} (l : list A) : Z := Z.of_nat (List.length l).

(** [l[i:j]] for [0 <= i]. *)
Definition slice {A} (l : list A) (i j : Z) : list A :=
  firstn (Z.to_nat (j - i)) (skipn (Z.to_nat i) l).

(** [range(0, stop, step)] for [0 <= stop]. *)
Definition range0 (stop step : Z) : result (list Z) :=
  if step =? 0 then Raise (ValueError "range() arg 3 must not be zero")
  else if step <? 0 then Ok []
  else Ok (map (fun k => Z.of_nat k * step)
               (seq 0 (Z.to_nat ((stop + step - 1) / step)))).

End Py.

Import Py.

(* ===================================================================== *)
(** * priority.py *)
(* ===================================================================== *)

Module Priority.

(** [@dataclass(order=True) class MasjidPriority] *)
Record MasjidPriority : Type := mkMasjidPriority {
  priority : Z;
  masjid_id : string;
  enabled : bool
}.

Definition bool_compare (a b : bool) : comparison :=
  match a, b with
  | false, true => Lt
  | true, false => Gt
  | _, _ => Eq
  end.

(** [order=True] compares instances as the tuples
    [(priority, masjid_id, enabled)]: the first differing component decides.
    Strings compare by code point, which on their UTF-8 bytes is
    [String.compare]; [False < True]. *)
Definition tuple_compare (a b : MasjidPriority) : comparison :=
  match Z.compare (priority a) (priority b) with
  | Eq =>
      match String.compare (masjid_id a) (masjid_id b) with
      | Eq => bool_compare (enabled a) (enabled b)
      | c => c
      end
  | c => c
  end.

(** [a < b], the only comparison [list.sort] and [sorted] use. *)
Definition lt (a b : MasjidPriority) : bool :=
  match tuple_compare a b with Lt => true | _ => false end.

(** Python's sort is stable: an element goes after the elements that are not
    greater than it and were before it in the input. *)
Fixpoint insert (x : MasjidPriority) (l : list MasjidPriority) : list MasjidPriority :=
  match l with
  | [] => [x]
  | y :: t => if lt y x then y :: insert x t else x :: y :: t
  end.

Fixpoint sorted (l : list MasjidPriority) : list MasjidPriority :=
  match l with
  | [] => []
  | x :: t => insert x (sorted t)
  end.

(** [class PriorityManager]; [__init__] sets [priority_list = []]. *)
Record PriorityManager : Type := mkPriorityManager {
  priority_list : list MasjidPriority
}.

Definition __init__ : PriorityManager := mkPriorityManager [].

Definition set_priority (mid : string) (prio : Z) (en : bool)
  : Method PriorityManager unit :=
  (modify (fun self => mkPriorityManager
     (filter (fun p => negb (masjid_id p =? mid)%string) (priority_list self))) ;;;
   modify (fun self => mkPriorityManager
     (priority_list self ++ [mkMasjidPriority prio mid en])) ;;;
   modify (fun self => mkPriorityManager (sorted (priority_list self))))%py.

(** The [for item in self.priority_list] loop of [set_enabled]: the first
    item with the id has its flag overwritten in place, then [break]. *)
Fixpoint set_enabled_loop (mid : string) (en : bool) (l : list MasjidPriority)
  : list MasjidPriority :=
  match l with
  | [] => []
  | item :: rest =>
      if (masjid_id item =? mid)%string
      then mkMasjidPriority (priority item) (masjid_id item) en :: rest
      else item :: set_enabled_loop mid en rest
  end.

Definition set_enabled (mid : string) (en : bool) : Method PriorityManager unit :=
  modify (fun self => mkPriorityManager (set_enabled_loop mid en (priority_list self))).

(** [x in live_masjid_ids] *)
Definition contains (live : list string) (x : string) : bool :=
  existsb (String.eqb x) live.

Definition qualifies (live : list string) (item : MasjidPriority) : bool :=
  enabled item && contains live (masjid_id item).

Fixpoint highest_loop (live : list string) (items : list MasjidPriority)
  : option string :=
  match items with
  | [] => None
  | item :: rest =>
      if qualifies live item then Some (masjid_id item)
      else highest_loop live rest
  end.

(** [sorted(self.priority_list)] builds a new list; the stored one is only
    read. *)
Definition highest_priority_live (live : list string)
  : Method PriorityManager (option string) :=
  (self <- get ;;
   ret (highest_loop live (sorted (priority_list self))))%py.

(** Python values stored in the exported dicts. *)
Inductive value : Type :=
| VStr (s : string)
| VInt (z : Z)
| VBool (b : bool).

(** A dict literal, in insertion order. *)
Definition dict : Type := list (string * value).

Definition to_dict (p : MasjidPriority) : dict :=
  [("masjid_id", VStr (masjid_id p));
   ("priority", VInt (priority p));
   ("enabled", VBool (enabled p))].

Definition as_dicts : Method PriorityManager (list dict) :=
  (self <- get ;;
   ret (map to_dict (sorted (priority_list self))))%py.

(** The registry invariant of the specification. *)
Definition unique_ids (m : PriorityManager) : Prop :=
  NoDup (map masjid_id (priority_list m)).

(** The sort key order on (priority, id): what "priority ascending, ties by
    id ascending" means. *)
Definition key_le (a b : MasjidPriority) : Prop :=
  priority a < priority b \/
  (priority a = priority b /\ String.leb (masjid_id a) (masjid_id b) = true).

(** [le a b]: [b < a] is false. *)
Definition le (a b : MasjidPriority) : Prop := lt b a = false.

(** With unique ids the single matching entry is the one rewritten. *)
Definition with_enabled (mid : string) (en : bool) (p : MasjidPriority)
  : MasjidPriority :=
  if (masjid_id p =? mid)%string
  then mkMasjidPriority (priority p) (masjid_id p) en
  else p.

Definition registry_AB : PriorityManager :=
  exec (set_priority "masjidB" 2 true)
       (exec (set_priority "masjidA" 1 true) __init__).

Definition registry_x : PriorityManager :=
  mkPriorityManager [mkMasjidPriority 1 "a" true; mkMasjidPriority 5 "x" true].

End Priority.

(* ===================================================================== *)
(** * noise_reduction.py *)
(* ===================================================================== *)

Module NoiseReduction.

(** ** The [audioop.rms] the energy gate calls

    [audioop.rms(fragment, width)] rejects a width outside 1..4 and a
    fragment that is not a whole number of [width]-byte samples; otherwise it
    returns the integer part of the square root of the mean of the squared
    samples, each sample a signed little-endian integer.  The C code does
    the division and the root in double precision; the model is exact. *)

Fixpoint le_unsigned (bs : bytes) : Z :=
  match bs with
  | [] => 0
  | b :: t => Z.of_N (Byte.to_N b) + 256 * le_unsigned t
  end.

Definition sample (bs : bytes) : Z :=
  let u := le_unsigned bs in
  let m := 2 ^ (8 * len bs) in
  if u <? m / 2 then u else u - m.

Fixpoint samples (fuel : nat) (width : nat) (bs : bytes) : list Z :=
  match fuel with
  | O => []
  | S fuel' =>
      match bs with
      | [] => []
      | _ => sample (firstn width bs) :: samples fuel' width (skipn width bs)
      end
  end.

Definition sum_squares (fragment : bytes) (width : Z) : Z :=
  fold_left (fun acc v => acc + v * v)
            (samples (List.length fragment) (Z.to_nat width) fragment) 0.

Definition audioop_rms (fragment : bytes) (width : Z) : result Z :=
  if (width <? 1) || (4 <? width)
  then Raise (AudioopError "Size should be 1, 2, 3 or 4")
  else if negb (len fragment mod width =? 0)
  then Raise (AudioopError "not a whole number of frames")
  else if len fragment =? 0 then Ok 0
  else Ok (Z.sqrt (sum_squares fragment width / (len fragment / width))).

(** ** [class NoiseReducer] *)

(** The object [rnnoise.RNNoise()] returns, known by its [process_frame]. *)
Record RNNoise : Type := mkRNNoise {
  process_frame : bytes -> bytes
}.

Record NoiseReducer : Type := mkNoiseReducer {
  sample_width : Z;
  gate_threshold : Z;
  _rn : option RNNoise
}.

(** [_RNNOISE_MODULE] is the loaded module, or [None] when [rnnoise] is not
    installed. *)
Definition __init__ (_RNNOISE_MODULE : option RNNoise)
    (sample_width gate_threshold : Z) : NoiseReducer :=
  mkNoiseReducer sample_width gate_threshold _RNNOISE_MODULE.

Definition default (_RNNOISE_MODULE : option RNNoise) : NoiseReducer :=
  __init__ _RNNOISE_MODULE 2 350.

Definition _reduce_rnnoise (self : NoiseReducer) (rn : RNNoise)
    (audio_data : bytes) : result bytes :=
  let frame_size := 480 * sample_width self in
  match range0 (len audio_data) frame_size with
  | Raise e => Raise e
  | Ok indices =>
      Ok (fold_left
            (fun cleaned i =>
               let chunk := slice audio_data i (i + frame_size) in
               if len chunk <? frame_size
               then cleaned ++ chunk
               else cleaned ++ process_frame rn chunk)
            indices [])
  end.

Definition _reduce_noise_gate (self : NoiseReducer) (audio_data : bytes)
  : result bytes :=
  match audioop_rms audio_data (sample_width self) with
  | Raise e => Raise e
  | Ok rms =>
      if rms <? gate_threshold self
      then Ok (repeat Byte.x00 (List.length audio_data))
      else Ok audio_data
  end.

Definition reduce_noise (self : NoiseReducer) (audio_data : bytes)
  : result bytes :=
  match audio_data with
  | [] => Ok audio_data
  | _ =>
      match _rn self with
      | Some rn => _reduce_rnnoise self rn audio_data
      | None => _reduce_noise_gate self audio_data
      end
  end.

(** The module-level [reduce_noise]. *)
Definition reduce_noise_default (_RNNOISE_MODULE : option RNNoise)
    (audio_data : bytes) : result bytes :=
  reduce_noise (default _RNNOISE_MODULE) audio_data.

(** The chunk [audio_data[i : i + frame_size]] of iteration [k], where
    [i = k * frame_size], and what that iteration appends to [cleaned]. *)
Definition frame (audio : bytes) (fs : Z) (k : nat) : bytes :=
  slice audio (Z.of_nat k * fs) (Z.of_nat k * fs + fs).

Definition emitted (pf : bytes -> bytes) (audio : bytes) (fs : Z) (k : nat)
  : bytes :=
  if len (frame audio fs k) <? fs then frame audio fs k
  else pf (frame audio fs k).

(** A suppressor that answers every frame with silence of the same size. *)
Definition silencer : RNNoise := mkRNNoise (map (fun _ => Byte.x00)).

End NoiseReduction.

(* ===================================================================== *)
(** * offline_player.py *)
(* ===================================================================== *)

Module OfflinePlayer.

(** What the player asks of the file system and of kivy's [SoundLoader]:
    whether a path exists, and whether loading it yields a sound ([None] when
    no loader accepts the file). *)
Record Assets : Type := mkAssets {
  path_exists : string -> bool;
  sound_load : string -> bool
}.

(** Calls made on kivy sound objects, each named by the path it was loaded
    from. *)
Inductive sound_call : Type :=
| SoundStop (path : string)
| SoundPlay (path : string).

(** [tracks] is the dict of [__init__]; [current_sound] is the loaded sound,
    if any; [calls] logs the calls on sound objects, oldest first. *)
Record OfflineAzaanPlayer : Type := mkOfflineAzaanPlayer {
  tracks : list (string * string);
  current_sound : option string;
  calls : list sound_call
}.

(** [Path(assets_dir) / name], for a plain directory name. *)
Definition joinpath (base name : string) : string := (base ++ "/" ++ name)%string.

Definition __init__ (assets_dir : string) : OfflineAzaanPlayer :=
  mkOfflineAzaanPlayer
    [("fajr", joinpath assets_dir "fajr.mp3");
     ("zuhr", joinpath assets_dir "zuhr.mp3");
     ("asr", joinpath assets_dir "asr.mp3");
     ("maghrib", joinpath assets_dir "maghrib.mp3");
     ("isha", joinpath assets_dir "isha.mp3")]
    None [].

(** [d.get(key)] *)
Fixpoint dict_get (d : list (string * string)) (key : string) : option string :=
  match d with
  | [] => None
  | (k, v) :: rest => if (k =? key)%string then Some v else dict_get rest key
  end.

Definition stop : Method OfflineAzaanPlayer unit :=
  (self <- get ;;
   match current_sound self with
   | Some snd =>
       modify (fun self => mkOfflineAzaanPlayer (tracks self) None
                             (calls self ++ [SoundStop snd]))
   | None => ret tt
   end)%py.

Definition play (fs : Assets) (prayer_name : string)
  : Method OfflineAzaanPlayer unit :=
  (self <- get ;;
   let not_found :=
     FileNotFoundError ("Offline track not found for prayer: " ++ prayer_name) in
   match dict_get (tracks self) (lower prayer_name) with
   | None => raise not_found
   | Some path =>
       if negb (path_exists fs path) then raise not_found
       else
         stop ;;;
         if sound_load fs path
         then modify (fun self => mkOfflineAzaanPlayer (tracks self) (Some path)
                                    (calls self ++ [SoundPlay path]))
         else modify (fun self => mkOfflineAzaanPlayer (tracks self) None
                                    (calls self))
   end)%py.

End OfflinePlayer.

(* ===================================================================== *)
(** * stream_sender.py *)
(* ===================================================================== *)

Module StreamSender.

(** ** Threads

    The interpreter's table of [threading.Thread] objects, oldest first, and
    the log of [join] calls.  A thread is named by its position in the
    table. *)
Inductive thread_state : Type :=
| Created
| Started.

Record Runtime : Type := mkRuntime {
  threads : list thread_state;
  joins : list nat
}.

Definition no_threads : Runtime := mkRuntime [] [].

Record LiveStreamSender : Type := mkLiveStreamSender {
  host : string;
  port : Z;
  ca_cert : option string;
  channels : Z;
  rate : Z;
  chunk : Z;
  reducer : NoiseReduction.NoiseReducer;
  _running : bool;
  _thread : option nat
}.

Definition __init__ (_RNNOISE_MODULE : option NoiseReduction.RNNoise)
    (host : string) (port : Z) (ca_cert : option string) : LiveStreamSender :=
  mkLiveStreamSender host port ca_cert 1 16000 1024
    (NoiseReduction.default _RNNOISE_MODULE) false None.

Definition set_running (b : bool) (self : LiveStreamSender) : LiveStreamSender :=
  mkLiveStreamSender (host self) (port self) (ca_cert self) (channels self)
    (rate self) (chunk self) (reducer self) b (_thread self).

Definition set_thread (t : option nat) (self : LiveStreamSender) : LiveStreamSender :=
  mkLiveStreamSender (host self) (port self) (ca_cert self) (channels self)
    (rate self) (chunk self) (reducer self) (_running self) t.

(** A sender together with the interpreter's threads. *)
Definition Session : Type := (LiveStreamSender * Runtime)%type.

(** [threading.Thread(target=..., daemon=True)]: a new entry, not yet
    started. *)
Definition Thread_new (rt : Runtime) : nat * Runtime :=
  (List.length (threads rt), mkRuntime (threads rt ++ [Created]) (joins rt)).

Fixpoint mark_started (t : nat) (l : list thread_state) : list thread_state :=
  match l, t with
  | [], _ => []
  | _ :: rest, O => Started :: rest
  | x :: rest, S t' => x :: mark_started t' rest
  end.

(** [thread.start()] *)
Definition Thread_start (t : nat) (rt : Runtime) : Runtime :=
  mkRuntime (mark_started t (threads rt)) (joins rt).

(** [thread.join(timeout=2)] returns when the thread has ended or the two
    seconds are over, whichever is first. *)
Definition Thread_join (t : nat) (rt : Runtime) : Runtime :=
  mkRuntime (threads rt) (joins rt ++ [t]).

Definition start : Method Session unit :=
  (st <- get ;;
   if _running (fst st) then ret tt
   else
     modify (fun st => (set_running true (fst st), snd st)) ;;;
     modify (fun st =>
               let (t, rt) := Thread_new (snd st) in
               (set_thread (Some t) (fst st), rt)) ;;;
     modify (fun st =>
               match _thread (fst st) with
               | Some t => (fst st, Thread_start t (snd st))
               | None => st
               end))%py.

Definition stop : Method Session unit :=
  (modify (fun st => (set_running false (fst st), snd st)) ;;;
   st <- get ;;
   match _thread (fst st) with
   | Some t => modify (fun st => (fst st, Thread_join t (snd st)))
   | None => ret tt
   end)%py.

(** ** The worker

    [_run_stream] runs in the thread [start] created.  Its surroundings: the
    audio device, the TLS stack and the network, each call returning or
    raising; and, for each test of [while self._running], the value the flag
    has at that moment (another thread clears it). *)
Record Surroundings : Type := mkSurroundings {
  PyAudio : result unit;
  pa_open : result unit;
  create_default_context : option string -> result unit;
  create_connection : string -> Z -> result unit;
  wrap_socket : string -> result unit;
  mic_read : nat -> result bytes;
  sendall : nat -> bytes -> result unit;
  running_at : nat -> bool
}.

Inductive event : Type :=
| MicOpened
| Connected
| Secured
| Sent (data : bytes)
| SecureSocketClosed
| SocketClosed
| MicStopped
| MicClosed
| PaTerminated.

(** How the worker ends: it returns, or dies with an exception nobody
    catches, or is still in its loop after the iterations looked at. *)
Inductive worker_end : Type :=
| Returned
| Uncaught (e : exn)
| StillRunning.

(** The [while self._running] loop, from iteration [n], for at most [fuel]
    iterations. *)
Fixpoint stream_loop (w : Surroundings) (self : LiveStreamSender)
    (fuel n : nat) : list event * worker_end :=
  match fuel with
  | O => ([], StillRunning)
  | S fuel' =>
      if negb (running_at w n) then ([], Returned)
      else
        match mic_read w n with
        | Raise e => ([], Uncaught e)
        | Ok data =>
            match NoiseReduction.reduce_noise (reducer self) data with
            | Raise e => ([], Uncaught e)
            | Ok cleaned =>
                match sendall w n cleaned with
                | Raise e => ([], Uncaught e)
                | Ok _ =>
                    let (evs, fin) := stream_loop w self fuel' (S n) in
                    (Sent cleaned :: evs, fin)
                end
            end
        end
  end.

(** The [try] block. *)
Definition stream_connected (w : Surroundings) (self : LiveStreamSender)
    (fuel : nat) : list event * worker_end :=
  match create_default_context w (ca_cert self) with
  | Raise e => ([], Uncaught e)
  | Ok _ =>
      match create_connection w (host self) (port self) with
      | Raise e => ([], Uncaught e)
      | Ok _ =>
          match wrap_socket w (host self) with
          | Raise e => ([Connected; SocketClosed], Uncaught e)
          | Ok _ =>
              let (evs, fin) := stream_loop w self fuel 0 in
              match fin with
              | StillRunning => (Connected :: Secured :: evs, StillRunning)
              | _ => (Connected :: Secured :: evs
                        ++ [SecureSocketClosed; SocketClosed], fin)
              end
          end
      end
  end.

Definition _run_stream (w : Surroundings) (self : LiveStreamSender)
    (fuel : nat) : list event * worker_end :=
  match PyAudio w with
  | Raise e => ([], Uncaught e)
  | Ok _ =>
      match pa_open w with
      | Raise e => ([], Uncaught e)
      | Ok _ =>
          let (evs, fin) := stream_connected w self fuel in
          match fin with
          | StillRunning => (MicOpened :: evs, StillRunning)
          | _ => (MicOpened :: evs ++ [MicStopped; MicClosed; PaTerminated], fin)
          end
      end
  end.

End StreamSender.

(* ===================================================================== *)
(** * main.py *)
(* ===================================================================== *)

Module Main.

(** Modelled from the spec: stream_receiver.py, the module of
    [LiveStreamReceiver], is not among the sources.  A receiver is a stream
    session (endpoint, running flag); what its constructor and its [start]
    do is left to the environment below, each returning or raising. *)
Record LiveStreamReceiver : Type := mkLiveStreamReceiver {
  r_host : string;
  r_port : Z;
  r_running : bool
}.

(** The collaborators of the application: the receiver class, the assets of
    the offline player, the optional [rnnoise] module, and the registry call
    behind [_update_masjid_live] ([require_token] then [set_masjid_live]). *)
Record Env : Type := mkEnv {
  receiver_init : string -> Z -> result LiveStreamReceiver;
  receiver_start : Method LiveStreamReceiver unit;
  assets : OfflinePlayer.Assets;
  rnnoise_module : option NoiseReduction.RNNoise;
  set_masjid_live : string -> bool -> result unit
}.

(** The fields of [LiveAzaanApp] the streaming entry points touch.
    [stream_status] is the property of the "live_azaan" screen;
    [logged_in] stands for [self.auth and self.masjid and self.auth.session]. *)
Record App : Type := mkApp {
  user_role : string;
  stream_status : string;
  offline_player : OfflinePlayer.OfflineAzaanPlayer;
  sender : option StreamSender.LiveStreamSender;
  receiver : option LiveStreamReceiver;
  logged_in : bool;
  runtime : StreamSender.Runtime
}.

(** The state [build] leaves, before any login. *)
Definition build : App :=
  mkApp "listener" "Idle" (OfflinePlayer.__init__ "assets") None None false
        StreamSender.no_threads.

Definition set_user_role (r : string) (a : App) : App :=
  mkApp r (stream_status a) (offline_player a) (sender a) (receiver a)
        (logged_in a) (runtime a).

Definition set_stream_status (s : string) (a : App) : App :=
  mkApp (user_role a) s (offline_player a) (sender a) (receiver a)
        (logged_in a) (runtime a).


Definition set_sender (s : option StreamSender.LiveStreamSender) (a : App) : App :=
  mkApp (user_role a) (stream_status a) (offline_player a) s (receiver a)
        (logged_in a) (runtime a).


Definition set_runtime (rt : StreamSender.Runtime) (a : App) : App :=
  mkApp (user_role a) (stream_status a) (offline_player a) (sender a)
        (receiver a) (logged_in a) rt.


(** A method call on [self.sender], which the caller has set. *)
Definition on_sender {A} (c : Method StreamSender.Session A) : Method App A :=
  fun a =>
    match sender a with
    | Some s =>
        let '(r, (s', rt)) := c (s, runtime a) in
        (r, set_runtime rt (set_sender (Some s') a))
    | None => (Raise (OtherError "'NoneType' object has no attribute"), a)
    end.


Definition _update_masjid_live (env : Env) (masjid_id : string) (is_live : bool)
  : Method App unit :=
  (a <- get ;;
   if (masjid_id =? "")%string then ret tt
   else if negb (logged_in a) then ret tt
   else
     try_except (lift (set_masjid_live env masjid_id is_live))
       (fun e => match e with AuthError _ | MasjidError _ => true | _ => false end)
       (fun _ => ret tt))%py.


Definition ValueError_or_OSError (e : exn) : bool :=
  isinstance_ValueError e || isinstance_OSError e.



Definition start_azaan (env : Env) (host port masjid_id : string)
  : Method App unit :=
  (a <- get ;;
   if negb (user_role a =? "maulvi")%string
   then modify (set_stream_status "Switch role to Maulvi first")
   else
     try_except
       (p <- lift (int port) ;;
        modify (set_sender
                  (Some (StreamSender.__init__ (rnnoise_module env)
                           (strip host) p None))) ;;;
        on_sender StreamSender.start ;;;
        modify (set_stream_status "Broadcasting live") ;;;
        _update_masjid_live env (strip masjid_id) true)
       ValueError_or_OSError
       (fun exc =>
          modify (set_stream_status ("Start failed: " ++ str_of_exn exc))))%py.

Definition stop_azaan (env : Env) (masjid_id : string) : Method App unit :=
  (a <- get ;;
   match sender a with
   | Some _ => on_sender StreamSender.stop
   | None => ret tt
   end ;;;
   modify (set_stream_status "Stopped") ;;;
   _update_masjid_live env (strip masjid_id) false)%py.


(** ** Sample surroundings *)

Definition all_assets : OfflinePlayer.Assets :=
  OfflinePlayer.mkAssets (fun _ => true) (fun _ => true).

Definition refused : exn := OSError "[Errno 111] Connection refused".

(** No receiver can connect; nobody is logged in. *)
Definition offline_env : Env :=
  mkEnv (fun _ _ => Raise refused)
        (fun r => (Raise refused, r))
        all_assets None (fun _ _ => Ok tt).

(** The relay refuses the connection; device and TLS are fine. *)
Definition unreachable : StreamSender.Surroundings :=
  StreamSender.mkSurroundings (Ok tt) (Ok tt) (fun _ => Ok tt)
    (fun _ _ => Raise refused) (fun _ => Ok tt)
    (fun _ => Ok []) (fun _ _ => Ok tt) (fun _ => true).

(** The audio device cannot be opened. *)
Definition no_device : StreamSender.Surroundings :=
  StreamSender.mkSurroundings (Ok tt)
    (Raise (OSError "[Errno -9996] Invalid input device (no default output device)"))
    (fun _ => Ok tt) (fun _ _ => Ok tt) (fun _ => Ok tt)
    (fun _ => Ok []) (fun _ _ => Ok tt) (fun _ => true).

(** The certificate does not match the host. *)
Definition bad_certificate : StreamSender.Surroundings :=
  StreamSender.mkSurroundings (Ok tt) (Ok tt) (fun _ => Ok tt)
    (fun _ _ => Ok tt)
    (fun _ => Raise (OSError "[SSL: CERTIFICATE_VERIFY_FAILED] certificate verify failed"))
    (fun _ => Ok []) (fun _ _ => Ok tt) (fun _ => true).

Definition maulvi_app : App := set_user_role "maulvi" build.

End Main.

(* ===================================================================== *)
(** * Call sequences on the registry *)
(* ===================================================================== *)

Module Registry.

Import Priority.

(** A mutating call on a [PriorityManager]. *)
Inductive call : Type :=
| SetPriority (mid : string) (prio : Z) (en : bool)
| SetEnabled (mid : string) (en : bool).

Definition perform (c : call) : Method PriorityManager unit :=
  match c with
  | SetPriority mid prio en => set_priority mid prio en
  | SetEnabled mid en => set_enabled mid en
  end.

(** The manager after the calls [cs], made in order on [m]. *)
Definition after (cs : list call) (m : PriorityManager) : PriorityManager :=
  fold_left (fun m c => exec (perform c) m) cs m.

(** The test of the list comprehension of [set_priority]. *)
Definition other (mid : string) (p : MasjidPriority) : bool :=
  negb (masjid_id p =? mid)%string.

End Registry.

(* ===================================================================== *)
(** * Reading a worker's trace *)
(* ===================================================================== *)

Module StreamTrace.

Import StreamSender.

(** The payloads of the [Sent] events, in order. *)
Fixpoint payloads (evs : list event) : list bytes :=
  match evs with
  | [] => []
  | Sent data :: rest => data :: payloads rest
  | _ :: rest => payloads rest
  end.

(** Iteration [i] of the loop goes through: the flag is set, the device
    gives [chunk], the reducer turns it into [cleaned], the socket takes
    it. *)
Definition iteration_ok (w : Surroundings) (self : LiveStreamSender) (i : nat)
    (chunk cleaned : bytes) : Prop :=
  running_at w i = true /\
  mic_read w i = Ok chunk /\
  NoiseReduction.reduce_noise (reducer self) chunk = Ok cleaned /\
  sendall w i cleaned = Ok tt.

(** Iteration [i] starts and one of its three calls raises [e]. *)
Definition iteration_fails (w : Surroundings) (self : LiveStreamSender) (i : nat)
    (e : exn) : Prop :=
  running_at w i = true /\
  (mic_read w i = Raise e \/
   (exists chunk,
      mic_read w i = Ok chunk /\
      NoiseReduction.reduce_noise (reducer self) chunk = Raise e) \/
   (exists chunk cleaned,
      mic_read w i = Ok chunk /\
      NoiseReduction.reduce_noise (reducer self) chunk = Ok cleaned /\
      sendall w i cleaned = Raise e)).

(** Device, TLS context, connection and handshake all succeed. *)
Definition setup_ok (w : Surroundings) (self : LiveStreamSender) : Prop :=
  PyAudio w = Ok tt /\ pa_open w = Ok tt /\
  create_default_context w (ca_cert self) = Ok tt /\
  create_connection w (host self) (port self) = Ok tt /\
  wrap_socket w (host self) = Ok tt.

(** A device that yields two-byte chunks of loudness 1000 and a relay that
    takes everything; the flag is cleared before the fourth iteration. *)
Definition three_chunks : Surroundings :=
  mkSurroundings (Ok tt) (Ok tt) (fun _ => Ok tt) (fun _ _ => Ok tt)
    (fun _ => Ok tt)
    (fun _ => Ok [Byte.xe8; Byte.x03]) (fun _ _ => Ok tt)
    (fun i => (i <? 3)%nat).

(** The same, but the third read returns a single byte. *)
Definition short_third_read : Surroundings :=
  mkSurroundings (Ok tt) (Ok tt) (fun _ => Ok tt) (fun _ _ => Ok tt)
    (fun _ => Ok tt)
    (fun i => if (i =? 2)%nat then Ok [Byte.xe8] else Ok [Byte.xe8; Byte.x03])
    (fun _ _ => Ok tt)
    (fun _ => true).

End StreamTrace.

(* ===================================================================== *)
(** * Reading the offline player's call log *)
(* ===================================================================== *)

Module OfflineLog.

Import OfflinePlayer.

(** Replays a call log from the moment [cur] is the sound playing: a sound
    may be started only when none is playing, and only the sound playing may
    be stopped.  The answer is the sound playing at the end, or [None] when
    the log breaks one of the two rules. *)
Fixpoint replay (cur : option string) (log : list sound_call)
  : option (option string) :=
  match log with
  | [] => Some cur
  | SoundPlay p :: rest =>
      match cur with
      | None => replay (Some p) rest
      | Some _ => None
      end
  | SoundStop p :: rest =>
      match cur with
      | Some q => if (q =? p)%string then replay None rest else None
      | None => None
      end
  end.

(** The log of the player is such a log, and it ends with [current_sound]
    playing. *)
Definition consistent (self : OfflineAzaanPlayer) : Prop :=
  replay None (calls self) = Some (current_sound self).


End OfflineLog.

(* ===================================================================== *)
(** * Python values of the JSON documents *)
(* ===================================================================== *)

Module PyVal.

(** [None], [bool], [int], [str], [list] and [dict] with [str] keys.  A dict
    is the list of its items in insertion order; its keys are distinct. *)
#[local] Unset Elimination Schemes.

Inductive pyval : Type :=
| PNone
| PBool (b : bool)
| PInt (z : Z)
| PStr (s : string)
| PList (l : list pyval)
| PDict (d : list (string * pyval)).

#[local] Set Elimination Schemes.

(** Exceptions of classes the sources do not name, by class. *)
Definition TypeError : exn := OtherError "TypeError".
Definition AttributeError : exn := OtherError "AttributeError".
Definition KeyError : exn := OtherError "KeyError".
Definition RecursionError : exn := OtherError "RecursionError".

(** [d.get(key)] on the items of a dict. *)
Fixpoint lookup (d : list (string * pyval)) (key : string) : option pyval :=
  match d with
  | [] => None
  | (k, v) :: rest => if (k =? key)%string then Some v else lookup rest key
  end.

(** [d.get(key, default)] *)
Definition get_default (d : list (string * pyval)) (key : string)
    (default : pyval) : pyval :=
  match lookup d key with Some v => v | None => default end.

(** [key in s] for two strings. *)
Fixpoint is_substring (key s : string) : bool :=
  String.prefix key s ||
  match s with
  | EmptyString => false
  | String _ t => is_substring key t
  end.

(** [key in l] for a list: some element is the string [key]. *)
Definition list_has (l : list pyval) (key : string) : bool :=
  existsb (fun v => match v with PStr s => (s =? key)%string | _ => false end) l.

(** [int(v)] *)
Definition int_of (v : pyval) : result Z :=
  match v with
  | PInt z => Ok z
  | PBool b => Ok (if b then 1 else 0)
  | PStr s => int s
  | _ => Raise TypeError
  end.

(** [bool(v)] *)
Definition truthy (v : pyval) : bool :=
  match v with
  | PNone => false
  | PBool b => b
  | PInt z => negb (z =? 0)
  | PStr s => negb (s =? "")%string
  | PList l => match l with [] => false | _ => true end
  | PDict d => match d with [] => false | _ => true end
  end.

Fixpoint chars (s : string) : list pyval :=
  match s with
  | EmptyString => []
  | String c t => PStr (String c EmptyString) :: chars t
  end.

(** What [for v in x] goes through. *)
Definition iterate (x : pyval) : result (list pyval) :=
  match x with
  | PList l => Ok l
  | PStr s => Ok (chars s)
  | PDict d => Ok (map (fun kv => PStr (fst kv)) d)
  | _ => Raise TypeError
  end.

(** [[f(v) for v in l]]: the first call that raises ends the
    comprehension. *)
Fixpoint for_each {A B} (f : A -> result B) (l : list A) : result (list B) :=
  match l with
  | [] => Ok []
  | x :: rest =>
      match f x with
      | Raise e => Raise e
      | Ok y =>
          match for_each f rest with
          | Raise e => Raise e
          | Ok ys => Ok (y :: ys)
          end
      end
  end.

(** The exported dicts of priority.py as values. *)
Definition of_value (v : Priority.value) : pyval :=
  match v with
  | Priority.VStr s => PStr s
  | Priority.VInt z => PInt z
  | Priority.VBool b => PBool b
  end.

Definition of_dict (d : Priority.dict) : pyval :=
  PDict (map (fun kv => (fst kv, of_value (snd kv))) d).

End PyVal.

(* ===================================================================== *)
(** * masjid.py *)
(* ===================================================================== *)

Module Masjid.

Import PyVal.

Record MasjidManager : Type := mkMasjidManager {
  project_id : string;
  timeout : Z
}.

Definition base_url (self : MasjidManager) : string :=
  ("https://firestore.googleapis.com/v1/projects/" ++ project_id self
   ++ "/databases/(default)/documents")%string.

Definition _headers (id_token : string) : list (string * string) :=
  [("Authorization", ("Bearer " ++ id_token)%string);
   ("Content-Type", "application/json")].

(** A call of [requests.patch] and what comes back. *)
Record Request : Type := mkRequest {
  url : string;
  params : list (string * pyval);
  json_body : pyval;
  headers : list (string * string);
  request_timeout : Z
}.

Record Response : Type := mkResponse {
  ok : bool;
  text : string;
  json : result pyval
}.

Definition kinds : list string :=
  ["stringValue"; "booleanValue"; "integerValue"; "timestampValue";
   "arrayValue"; "mapValue"].

(** The values of a dict comprehension over [fields.items()]. *)
Definition for_each_item (f : pyval -> result pyval)
    (items : list (string * pyval)) : result (list (string * pyval)) :=
  for_each (fun kv => match f (snd kv) with
                      | Ok v => Ok (fst kv, v)
                      | Raise e => Raise e
                      end) items.

(** [_decode_value].  [depth] is the number of nested calls the interpreter
    still allows.  On a dict the six kinds are tried in the order of the
    source.  On a string or a list [in] is a containment test, and the
    subscript that follows a hit raises; on anything else [in] raises. *)
Fixpoint _decode_value (depth : nat) (value : pyval) : result pyval :=
  match depth with
  | O => Raise RecursionError
  | S depth' =>
      match value with
      | PDict d =>
          match lookup d "stringValue" with
          | Some v => Ok v
          | None =>
          match lookup d "booleanValue" with
          | Some v => Ok v
          | None =>
          match lookup d "integerValue" with
          | Some v =>
              match int_of v with Ok z => Ok (PInt z) | Raise e => Raise e end
          | None =>
          match lookup d "timestampValue" with
          | Some v => Ok v
          | None =>
          match lookup d "arrayValue" with
          | Some (PDict a) =>
              match iterate (get_default a "values" (PList [])) with
              | Raise e => Raise e
              | Ok vs =>
                  match for_each (_decode_value depth') vs with
                  | Ok out => Ok (PList out)
                  | Raise e => Raise e
                  end
              end
          | Some _ => Raise AttributeError
          | None =>
          match lookup d "mapValue" with
          | Some (PDict m) =>
              match get_default m "fields" (PDict []) with
              | PDict fields =>
                  match for_each_item (_decode_value depth') fields with
                  | Ok out => Ok (PDict out)
                  | Raise e => Raise e
                  end
              | _ => Raise AttributeError
              end
          | Some _ => Raise AttributeError
          | None => Ok PNone
          end end end end end end
      | PStr s =>
          if existsb (fun k => is_substring k s) kinds
          then Raise TypeError else Ok PNone
      | PList l =>
          if existsb (list_has l) kinds then Raise TypeError else Ok PNone
      | _ => Raise TypeError
      end
  end.

Definition _decode_document (depth : nat) (doc : pyval) : result pyval :=
  match doc with
  | PDict d =>
      match get_default d "fields" (PDict []) with
      | PDict fields =>
          match for_each_item (_decode_value depth) fields with
          | Ok out => Ok (PDict out)
          | Raise e => Raise e
          end
      | _ => Raise AttributeError
      end
  | _ => Raise AttributeError
  end.

Definition priority_map (masjid_id : pyval) (prio : Z) (en : bool) : pyval :=
  PDict [("mapValue",
          PDict [("fields",
                  PDict [("masjid_id", PDict [("stringValue", masjid_id)]);
                         ("priority", PDict [("integerValue", PInt prio)]);
                         ("enabled", PDict [("booleanValue", PBool en)])])])].

(** One round of the loop of [_to_priority_raw]. *)
Definition raw_of_item (item : pyval) : result pyval :=
  match item with
  | PDict d =>
      match int_of (get_default d "priority" (PInt 0)) with
      | Raise e => Raise e
      | Ok z =>
          Ok (priority_map (get_default d "masjid_id" (PStr "")) z
                (truthy (get_default d "enabled" (PBool true))))
      end
  | _ => Raise AttributeError
  end.

Definition _to_priority_raw (items : list pyval) : result (list pyval) :=
  for_each raw_of_item items.

(** One round of the loop of [update_user_priorities]. *)
Definition value_of_item (item : pyval) : result pyval :=
  match item with
  | PDict d =>
      match lookup d "masjid_id" with
      | None => Raise KeyError
      | Some mid =>
          match lookup d "priority" with
          | None => Raise KeyError
          | Some p =>
              match int_of p with
              | Raise e => Raise e
              | Ok z =>
                  Ok (priority_map mid z
                        (truthy (get_default d "enabled" (PBool true))))
              end
          end
      end
  | _ => Raise TypeError
  end.

Definition priority_payload (values : list pyval) : pyval :=
  PDict [("fields",
          PDict [("priority_list",
                  PDict [("arrayValue", PDict [("values", PList values)])])])].

Definition priority_request (self : MasjidManager) (id_token user_id : string)
    (values : list pyval) : Request :=
  mkRequest (base_url self ++ "/users/" ++ user_id)%string
    [("updateMask.fieldPaths", PList [PStr "priority_list"])]
    (priority_payload values) (_headers id_token) (timeout self).

(** [update_user_priorities], run on the log of the requests made so far.
    [patch] is [requests.patch]. *)
Definition update_user_priorities (patch : Request -> result Response)
    (depth : nat) (self : MasjidManager) (id_token user_id : string)
    (priority_items : list pyval) : Method (list Request) pyval :=
  (values <- lift (for_each value_of_item priority_items) ;;
   let request := priority_request self id_token user_id values in
   modify (fun log => log ++ [request]) ;;;
   response <- lift (patch request) ;;
   if negb (ok response) then raise (MasjidError (text response))
   else
     doc <- lift (json response) ;;
     lift (_decode_document depth doc))%py.

(** The exported entries of a registry as the values handed to the store,
    and the store value of one entry. *)
Definition exported (l : list Priority.MasjidPriority) : list pyval :=
  map of_dict (map Priority.to_dict l).

Definition encoded (p : Priority.MasjidPriority) : pyval :=
  priority_map (PStr (Priority.masjid_id p)) (Priority.priority p)
    (Priority.enabled p).

End Masjid.

(* ===================================================================== *)
(** * main.py: settings and notifications *)
(* ===================================================================== *)

Module Shell.

Import PyVal Main.



(** The application with its registry, the status line of the settings
    screen and the requests made to the profile store. *)
Record Shell : Type := mkShell {
  app : App;
  priority : Priority.PriorityManager;
  settings_status : string;
  requests : list Masjid.Request
}.

(** The session and the store behind [set_priority]. *)
Record Store : Type := mkStore {
  require_token : result string;
  user_id : string;
  masjid : Masjid.MasjidManager;
  patch : Masjid.Request -> result Masjid.Response;
  recursion_limit : nat
}.

Definition on_priority {A} (c : Method Priority.PriorityManager A)
  : Method Shell A :=
  fun s =>
    let (r, m) := c (priority s) in
    (r, mkShell (app s) m (settings_status s) (requests s)).

Definition on_requests {A} (c : Method (list Masjid.Request) A)
  : Method Shell A :=
  fun s =>
    let (r, log) := c (requests s) in
    (r, mkShell (app s) (priority s) (settings_status s) log).

Definition set_settings_status (t : string) (s : Shell) : Shell :=
  mkShell (app s) (priority s) t (requests s).

Definition set_priority_errors (e : exn) : bool :=
  match e with
  | ValueError _ | AuthError _ | MasjidError _ => true
  | _ => false
  end.

(** The [try] block of [LiveAzaanApp.set_priority]. *)
Definition set_priority_try (store : Store) (masjid_id prio : string)
  : Method Shell unit :=
  (p <- lift (int prio) ;;
   on_priority (Priority.set_priority (strip masjid_id) p true) ;;;
   s <- get ;;
   (if logged_in (app s)
    then
      token <- lift (require_token store) ;;
      items <- on_priority Priority.as_dicts ;;
      on_requests (Masjid.update_user_priorities (patch store)
                     (recursion_limit store) (masjid store) token
                     (user_id store) (map of_dict items)) ;;;
      ret tt
    else ret tt) ;;;
   modify (set_settings_status "Priority saved"))%py.

Definition set_priority (store : Store) (masjid_id prio : string)
  : Method Shell unit :=
  try_except (set_priority_try store masjid_id prio)
    set_priority_errors
    (fun exc =>
       modify (set_settings_status
                 ("Priority update failed: " ++ str_of_exn exc))).

(** ** Sample stores *)







End Shell.

(* ===================================================================== *)
(** * What a broadcast leaves behind *)
(* ===================================================================== *)

Module Broadcast.

Import Main.

(** The classes [_update_masjid_live] catches. *)
Definition swallowed (e : exn) : bool :=
  match e with AuthError _ | MasjidError _ => true | _ => false end.




(** The application [stop_azaan] leaves behind. *)
Definition stopped_app (a : App) : App :=
  set_stream_status "Stopped"
    match sender a with
    | Some s =>
        set_runtime
          match StreamSender._thread s with
          | Some t => StreamSender.Thread_join t (runtime a)
          | None => runtime a
          end
          (set_sender (Some (StreamSender.set_running false s)) a)
    | None => a
    end.

End Broadcast.

(* ===================================================================== *)
(** * Properties of priority.py *)
(* ===================================================================== *)

Module PriorityProofs.

Import Priority.

(** ** The dataclass order is a strict total order *)

Lemma ascii_compare_refl (x : ascii) : Ascii.compare x x = Eq.
Proof. unfold Ascii.compare. apply N.compare_refl. Qed.

Lemma ascii_compare_lt_trans (x y z : ascii) :
  Ascii.compare x y = Lt -> Ascii.compare y z = Lt -> Ascii.compare x z = Lt.
Proof.
  unfold Ascii.compare. rewrite !N.compare_lt_iff. apply N.lt_trans.
Qed.

Lemma string_compare_refl (s : string) : String.compare s s = Eq.
Proof.
  induction s as [|x s IH]; simpl; [reflexivity|].
  now rewrite ascii_compare_refl.
Qed.

Lemma string_compare_lt_trans (a : string) :
  forall b c, String.compare a b = Lt -> String.compare b c = Lt ->
              String.compare a c = Lt.
Proof.
  induction a as [|x a IH]; intros [|y b] [|z c]; simpl; try discriminate; auto.
  destruct (Ascii.compare x y) eqn:Exy; try discriminate;
    destruct (Ascii.compare y z) eqn:Eyz; try discriminate; intros Hab Hbc.
  - apply Ascii.compare_eq_iff in Exy, Eyz. subst.
    rewrite ascii_compare_refl. eauto.
  - apply Ascii.compare_eq_iff in Exy. subst. now rewrite Eyz.
  - apply Ascii.compare_eq_iff in Eyz. subst. now rewrite Exy.
  - now rewrite (ascii_compare_lt_trans x y z).
Qed.

Lemma tuple_compare_antisym (a b : MasjidPriority) :
  tuple_compare a b = CompOpp (tuple_compare b a).
Proof.
  unfold tuple_compare.
  rewrite (Z.compare_antisym (priority b) (priority a)).
  rewrite (String.compare_antisym (masjid_id a) (masjid_id b)).
  destruct (priority b ?= priority a); simpl; auto.
  destruct (String.compare (masjid_id b) (masjid_id a)); simpl; auto.
  now destruct (enabled a), (enabled b).
Qed.

Lemma tuple_compare_eq (a b : MasjidPriority) :
  tuple_compare a b = Eq -> a = b.
Proof.
  unfold tuple_compare. destruct a as [pa ia ea], b as [pb ib eb]; simpl.
  destruct (Z.compare_spec pa pb); try discriminate.
  destruct (String.compare ia ib) eqn:Es; try discriminate.
  apply String.compare_eq_iff in Es. subst.
  destruct ea, eb; simpl; congruence.
Qed.

Lemma tuple_compare_lt_trans (a b c : MasjidPriority) :
  tuple_compare a b = Lt -> tuple_compare b c = Lt -> tuple_compare a c = Lt.
Proof.
  unfold tuple_compare.
  destruct (Z.compare_spec (priority a) (priority b)) as [Hab|Hab|Hab];
    try discriminate;
    destruct (Z.compare_spec (priority b) (priority c)) as [Hbc|Hbc|Hbc];
    try discriminate;
    destruct (Z.compare_spec (priority a) (priority c)) as [Hac|Hac|Hac];
    try lia; auto.
  destruct (String.compare (masjid_id a) (masjid_id b)) eqn:Sab; try discriminate;
    destruct (String.compare (masjid_id b) (masjid_id c)) eqn:Sbc; try discriminate.
  - apply String.compare_eq_iff in Sab, Sbc. rewrite Sab, Sbc.
    rewrite string_compare_refl.
    destruct (enabled a), (enabled b), (enabled c); simpl; congruence.
  - apply String.compare_eq_iff in Sab. rewrite Sab, Sbc. auto.
  - apply String.compare_eq_iff in Sbc. rewrite <- Sbc, Sab. auto.
  - rewrite (string_compare_lt_trans _ _ _ Sab Sbc). auto.
Qed.

Lemma lt_asym (a b : MasjidPriority) : lt a b = true -> le a b.
Proof.
  unfold le, lt. rewrite (tuple_compare_antisym b a).
  destruct (tuple_compare a b); simpl; congruence.
Qed.

Lemma le_trans (a b c : MasjidPriority) : le a b -> le b c -> le a c.
Proof.
  unfold le, lt. intros Hab Hbc.
  destruct (tuple_compare c a) eqn:Hca; auto.
  destruct (tuple_compare b a) eqn:Hba; try discriminate.
  - apply tuple_compare_eq in Hba. subst. now rewrite Hca in Hbc.
  - assert (Hab' : tuple_compare a b = Lt)
      by (rewrite tuple_compare_antisym, Hba; reflexivity).
    now rewrite (tuple_compare_lt_trans c a b Hca Hab') in Hbc.
Qed.

Lemma le_key_le (a b : MasjidPriority) : le a b -> key_le a b.
Proof.
  unfold le, lt, key_le. rewrite tuple_compare_antisym. unfold tuple_compare.
  destruct (Z.compare_spec (priority a) (priority b)) as [H|H|H]; simpl;
    try discriminate; auto.
  intros Hc. right. split; [assumption|]. unfold String.leb.
  destruct (String.compare (masjid_id a) (masjid_id b)); simpl in *;
    auto; discriminate.
Qed.

(** ** [sorted] returns the sorted permutation of its argument *)

Lemma insert_perm (x : MasjidPriority) (l : list MasjidPriority) :
  Permutation (insert x l) (x :: l).
Proof.
  induction l as [|y t IH]; simpl; [apply Permutation_refl|].
  destruct (lt y x); [|apply Permutation_refl].
  eapply Permutation_trans; [apply perm_skip, IH | apply perm_swap].
Qed.

Lemma sorted_perm (l : list MasjidPriority) : Permutation (sorted l) l.
Proof.
  induction l as [|x t IH]; simpl; [constructor|].
  eapply Permutation_trans; [apply insert_perm | apply perm_skip, IH].
Qed.

Lemma insert_sorted (x : MasjidPriority) (l : list MasjidPriority) :
  StronglySorted le l -> StronglySorted le (insert x l).
Proof.
  induction 1 as [|y t Hs IH Hy]; simpl.
  - repeat constructor.
  - destruct (lt y x) eqn:Hyx.
    + constructor; [assumption|].
      eapply Permutation_Forall; [apply Permutation_sym, insert_perm|].
      constructor; [now apply lt_asym | assumption].
    + constructor; [now constructor|].
      constructor; [exact Hyx|].
      eapply Forall_impl; [|exact Hy]. intros z Hz.
      now apply (le_trans x y z).
Qed.

Lemma sorted_sorted (l : list MasjidPriority) : StronglySorted le (sorted l).
Proof.
  induction l as [|x t IH]; simpl; [constructor | now apply insert_sorted].
Qed.

Lemma sorted_key_sorted (l : list MasjidPriority) :
  StronglySorted key_le (sorted l).
Proof.
  generalize (sorted_sorted l). generalize (sorted l). clear l.
  induction 1 as [|y t Hs IH Hy]; constructor; auto.
  eapply Forall_impl; [|exact Hy]. intros z. apply le_key_le.
Qed.

Lemma StronglySorted_after (R : MasjidPriority -> MasjidPriority -> Prop)
    (before : list MasjidPriority) (p : MasjidPriority)
    (after : list MasjidPriority) :
  StronglySorted R (before ++ p :: after) -> Forall (R p) after.
Proof.
  induction before as [|b before IH]; simpl; intros H.
  - now apply StronglySorted_inv in H.
  - apply StronglySorted_inv in H. now apply IH.
Qed.

(** ** The scan of [highest_priority_live] *)

Lemma contains_In (live : list string) (x : string) :
  contains live x = true <-> In x live.
Proof.
  unfold contains. rewrite existsb_exists. split.
  - intros [y [Hy He]]. apply String.eqb_eq in He. now subst.
  - intros H. exists x. split; [assumption | apply String.eqb_refl].
Qed.

Lemma qualifies_iff (live : list string) (q : MasjidPriority) :
  qualifies live q = true <-> enabled q = true /\ In (masjid_id q) live.
Proof.
  unfold qualifies. rewrite andb_true_iff, contains_In. tauto.
Qed.

Lemma highest_loop_first (live : list string) (items : list MasjidPriority) :
  match highest_loop live items with
  | Some g =>
      exists before p after,
        items = before ++ p :: after /\ g = masjid_id p /\
        qualifies live p = true /\
        Forall (fun q => qualifies live q = false) before
  | None => Forall (fun q => qualifies live q = false) items
  end.
Proof.
  induction items as [|item rest IH]; simpl; [constructor|].
  destruct (qualifies live item) eqn:Hq.
  - exists [], item, rest. repeat split; auto.
  - destruct (highest_loop live rest) as [g|].
    + destruct IH as (before & p & after & -> & Hg & Hp & Hb).
      exists (item :: before), p, after. repeat split; auto.
    + now constructor.
Qed.

(** ** Uniqueness of ids *)

Lemma set_enabled_loop_ids (mid : string) (en : bool) (l : list MasjidPriority) :
  map masjid_id (set_enabled_loop mid en l) = map masjid_id l.
Proof.
  induction l as [|item rest IH]; simpl; [reflexivity|].
  destruct (masjid_id item =? mid)%string; simpl; congruence.
Qed.

Lemma set_enabled_loop_absent (mid : string) (en : bool) (l : list MasjidPriority) :
  ~ In mid (map masjid_id l) -> set_enabled_loop mid en l = l.
Proof.
  induction l as [|item rest IH]; simpl; intros H; [reflexivity|].
  destruct (String.eqb_spec (masjid_id item) mid) as [E|E].
  - exfalso. auto.
  - f_equal. apply IH. tauto.
Qed.

Lemma set_enabled_loop_unique (mid : string) (en : bool) (l : list MasjidPriority) :
  NoDup (map masjid_id l) ->
  set_enabled_loop mid en l = map (with_enabled mid en) l.
Proof.
  induction l as [|item rest IH]; simpl; intros H; [reflexivity|].
  inversion H as [|? ? Hnotin Hnd]; subst. unfold with_enabled at 1.
  destruct (String.eqb_spec (masjid_id item) mid) as [E|E].
  - f_equal. rewrite <- (set_enabled_loop_absent mid en rest) at 1.
    + rewrite <- IH by assumption. reflexivity.
    + now rewrite <- E.
  - f_equal. now apply IH.
Qed.

Lemma filter_other_ids (mid : string) (l : list MasjidPriority) :
  ~ In mid (map masjid_id
              (filter (fun p => negb (masjid_id p =? mid)%string) l)).
Proof.
  rewrite in_map_iff. intros [p [Hp Hin]]. apply filter_In in Hin.
  destruct Hin as [_ Hne]. subst. now rewrite String.eqb_refl in Hne.
Qed.

Lemma NoDup_map_filter (f : MasjidPriority -> bool) (l : list MasjidPriority) :
  NoDup (map masjid_id l) -> NoDup (map masjid_id (filter f l)).
Proof.
  induction l as [|x t IH]; simpl; intros H; [constructor|].
  inversion H as [|? ? Hnotin Hnd]; subst.
  destruct (f x); simpl; auto. constructor; auto.
  intros Hin. apply Hnotin. rewrite in_map_iff in *.
  destruct Hin as [p [Hp Hin]]. exists p. split; auto.
  apply filter_In in Hin. tauto.
Qed.

Lemma set_priority_list (mid : string) (prio : Z) (en : bool) (m : PriorityManager) :
  priority_list (exec (set_priority mid prio en) m) =
  sorted (filter (fun p => negb (masjid_id p =? mid)%string) (priority_list m)
          ++ [mkMasjidPriority prio mid en]).
Proof. reflexivity. Qed.

Lemma set_priority_perm (mid : string) (prio : Z) (en : bool) (m : PriorityManager) :
  Permutation (priority_list (exec (set_priority mid prio en) m))
    (mkMasjidPriority prio mid en ::
     filter (fun p => negb (masjid_id p =? mid)%string) (priority_list m)).
Proof.
  rewrite set_priority_list.
  eapply Permutation_trans; [apply sorted_perm|].
  apply Permutation_sym, Permutation_cons_append.
Qed.

Lemma filter_perm (f : MasjidPriority -> bool) (l l' : list MasjidPriority) :
  Permutation l l' -> Permutation (filter f l) (filter f l').
Proof.
  induction 1 as [|x l l' _ IH|x y l|l l' l'' _ IH1 _ IH2]; simpl.
  - constructor.
  - destruct (f x); auto.
  - destruct (f x), (f y); auto using Permutation_refl, perm_swap.
  - eapply Permutation_trans; eassumption.
Qed.

Lemma filter_same_id_none (mid : string) (l : list MasjidPriority) :
  filter (fun p => (masjid_id p =? mid)%string)
    (filter (fun p => negb (masjid_id p =? mid)%string) l) = [].
Proof.
  induction l as [|x t IH]; simpl; [reflexivity|].
  destruct (masjid_id x =? mid)%string eqn:E; simpl; auto.
  now rewrite E.
Qed.

(** After [set_priority mid prio en] the entries carrying [mid] are exactly
    the new one, whatever the registry held before. *)
Lemma set_priority_single (mid : string) (prio : Z) (en : bool) (m : PriorityManager) :
  filter (fun p => (masjid_id p =? mid)%string)
    (priority_list (exec (set_priority mid prio en) m))
  = [mkMasjidPriority prio mid en].
Proof.
  apply Permutation_length_1_inv, Permutation_sym.
  eapply Permutation_trans; [apply filter_perm, set_priority_perm|].
  simpl. rewrite String.eqb_refl, filter_same_id_none. apply Permutation_refl.
Qed.

(** ** Claims about the registry *)

(** C1. [highest_priority_live] returns the id of the first entry, in sort
    order, that is enabled and whose id is in the live collection: the entries
    before it in the sorted list do not qualify, and every qualifying entry of
    the registry has a (priority, id) key at least as large; it returns [None]
    exactly when no entry is enabled and live.  With masjidA at priority 1 and
    masjidB at priority 2, both enabled, the answer is masjidB when only
    masjidB is live and masjidA when both are. *)
Theorem highest_priority_live_first_enabled_live :
  (forall (m : PriorityManager) (live : list string),
     match eval (highest_priority_live live) m with
     | Ok (Some g) =>
         exists before p after,
           sorted (priority_list m) = before ++ p :: after /\
           g = masjid_id p /\
           enabled p = true /\ In (masjid_id p) live /\
           (forall q, In q before ->
                      ~ (enabled q = true /\ In (masjid_id q) live)) /\
           (forall q, In q (priority_list m) ->
                      enabled q = true -> In (masjid_id q) live -> key_le p q)
     | Ok None =>
         forall q, In q (priority_list m) ->
                   ~ (enabled q = true /\ In (masjid_id q) live)
     | Raise _ => False
     end) /\
  priority_list registry_AB =
    [mkMasjidPriority 1 "masjidA" true; mkMasjidPriority 2 "masjidB" true] /\
  eval (highest_priority_live ["masjidB"]) registry_AB = Ok (Some "masjidB") /\
  eval (highest_priority_live ["masjidA"; "masjidB"]) registry_AB
    = Ok (Some "masjidA") /\
  eval (highest_priority_live []) registry_AB = Ok None /\
  eval (highest_priority_live ["masjidB"])
       (exec (set_enabled "masjidB" false) registry_AB) = Ok None.
Proof.
  split; [|repeat split; reflexivity].
  intros m live. unfold eval, highest_priority_live, bind, get, ret. simpl.
  generalize (highest_loop_first live (sorted (priority_list m))).
  destruct (highest_loop live (sorted (priority_list m))) as [g|].
  - intros (before & p & after & Hs & Hg & Hp & Hb).
    exists before, p, after. apply qualifies_iff in Hp. destruct Hp as [He Hl].
    repeat split; auto.
    + intros q Hq Hqq. apply qualifies_iff in Hqq.
      rewrite Forall_forall in Hb. rewrite (Hb q Hq) in Hqq. discriminate.
    + intros q Hq Hqe Hql.
      assert (Hqs : In q (before ++ p :: after)).
      { rewrite <- Hs. eapply Permutation_in; [|exact Hq].
        apply Permutation_sym, sorted_perm. }
      apply in_app_or in Hqs. destruct Hqs as [Hqb|[Hqp|Hqa]].
      * rewrite Forall_forall in Hb. specialize (Hb q Hqb).
        assert (qualifies live q = true) by (apply qualifies_iff; auto).
        congruence.
      * subst q. apply le_key_le. unfold le, lt.
        generalize (tuple_compare_antisym p p).
        destruct (tuple_compare p p); simpl; auto; discriminate.
      * generalize (sorted_sorted (priority_list m)). rewrite Hs. intros Hss.
        apply StronglySorted_after in Hss. rewrite Forall_forall in Hss.
        apply le_key_le. auto.
  - intros Hall q Hq Hqq. apply qualifies_iff in Hqq.
    rewrite Forall_forall in Hall. rewrite Hall in Hqq; [discriminate|].
    eapply Permutation_in; [|exact Hq]. apply Permutation_sym, sorted_perm.
Qed.

(** C5. [as_dicts] exports every entry of the registry once, ordered by
    priority ascending and, among equal priorities, by id ascending; the
    entries (2,"b"), (1,"c"), (1,"a") come out as ("a",1), ("c",1), ("b",2),
    both when stored in that order and when entered through
    [set_priority]. *)
Theorem as_dicts_priority_then_id_order :
  (forall m : PriorityManager,
     exists l,
       eval as_dicts m = Ok (map to_dict l) /\
       Permutation l (priority_list m) /\
       StronglySorted key_le l) /\
  eval as_dicts
    (mkPriorityManager [mkMasjidPriority 2 "b" true;
                        mkMasjidPriority 1 "c" true;
                        mkMasjidPriority 1 "a" true])
  = Ok [to_dict (mkMasjidPriority 1 "a" true);
        to_dict (mkMasjidPriority 1 "c" true);
        to_dict (mkMasjidPriority 2 "b" true)] /\
  eval as_dicts
    (exec (set_priority "a" 1 true)
       (exec (set_priority "c" 1 true)
          (exec (set_priority "b" 2 true) __init__)))
  = Ok [[("masjid_id", VStr "a"); ("priority", VInt 1); ("enabled", VBool true)];
        [("masjid_id", VStr "c"); ("priority", VInt 1); ("enabled", VBool true)];
        [("masjid_id", VStr "b"); ("priority", VInt 2); ("enabled", VBool true)]].
Proof.
  split; [|split; reflexivity].
  intros m. exists (sorted (priority_list m)).
  split; [reflexivity|]. split; [apply sorted_perm | apply sorted_key_sorted].
Qed.

(** C6. A registry with at most one entry per id keeps that property under
    [set_priority] and [set_enabled].  [set_priority] leaves the entries of
    the other ids plus the new entry; [set_enabled] keeps the ids in place,
    rewrites the flag of the entry with the id and is the identity when the id
    is absent.  Two [set_priority] calls for one id leave a single entry for
    it, carrying the second priority. *)
Theorem registry_unique_ids_preserved :
  forall m : PriorityManager,
    unique_ids m ->
    (forall mid prio en,
       eval (set_priority mid prio en) m = Ok tt /\
       unique_ids (exec (set_priority mid prio en) m) /\
       Permutation (priority_list (exec (set_priority mid prio en) m))
         (mkMasjidPriority prio mid en ::
          filter (fun p => negb (masjid_id p =? mid)%string) (priority_list m))) /\
    (forall mid en,
       eval (set_enabled mid en) m = Ok tt /\
       unique_ids (exec (set_enabled mid en) m) /\
       priority_list (exec (set_enabled mid en) m)
         = map (with_enabled mid en) (priority_list m) /\
       (~ In mid (map masjid_id (priority_list m)) ->
        exec (set_enabled mid en) m = m)) /\
    (forall mid p1 e1 p2 e2,
       let m2 := exec (set_priority mid p2 e2) (exec (set_priority mid p1 e1) m) in
       unique_ids m2 /\
       filter (fun p => (masjid_id p =? mid)%string) (priority_list m2)
         = [mkMasjidPriority p2 mid e2]).
Proof.
  intros m Hm.
  assert (Hset : forall m' mid prio en,
             unique_ids m' -> unique_ids (exec (set_priority mid prio en) m')).
  { intros m' mid prio en Hm'. unfold unique_ids.
    eapply Permutation_NoDup.
    - apply Permutation_map, Permutation_sym, set_priority_perm.
    - simpl. constructor; [apply filter_other_ids | now apply NoDup_map_filter]. }
  split; [|split].
  - intros mid prio en. split; [reflexivity|]. split; [now apply Hset|].
    apply set_priority_perm.
  - intros mid en. split; [reflexivity|]. split; [|split].
    + unfold unique_ids, exec, set_enabled, modify. simpl.
      now rewrite set_enabled_loop_ids.
    + unfold exec, set_enabled, modify. simpl.
      now apply set_enabled_loop_unique.
    + intros Habs. unfold exec, set_enabled, modify. simpl.
      rewrite set_enabled_loop_absent by assumption. now destruct m.
  - intros mid p1 e1 p2 e2 m2. split.
    + unfold m2. now apply Hset, Hset.
    + apply set_priority_single.
Qed.

Lemma registry_unique_ids_preserved_witness :
  unique_ids registry_x /\
  priority_list (exec (set_priority "x" 7 true) (exec (set_priority "x" 5 true) registry_x))
    = [mkMasjidPriority 1 "a" true; mkMasjidPriority 7 "x" true] /\
  filter (fun p => (masjid_id p =? "x")%string)
    (priority_list (exec (set_priority "x" 7 true)
                      (exec (set_priority "x" 5 true) registry_x)))
    = [mkMasjidPriority 7 "x" true].
Proof.
  assert (H : unique_ids registry_x).
  { unfold unique_ids, registry_x. simpl.
    constructor; [simpl; intros [E|[]]; discriminate E|].
    constructor; [simpl; tauto | constructor]. }
  split; [exact H|]. split; [reflexivity|].
  destruct (registry_unique_ids_preserved registry_x H) as [_ [_ Htwice]].
  exact (proj2 (Htwice "x" 5 true 7 true)).
Defined.

(** C10. The two queries only read the registry: after
    [highest_priority_live] (for any live collection) and after [as_dicts]
    the manager holds the list it held before, entry for entry and in the
    stored order, sorted or not. *)
Theorem queries_leave_registry_unchanged :
  forall (m : PriorityManager) (live : list string),
    exec (highest_priority_live live) m = m /\
    exec as_dicts m = m /\
    priority_list (exec (highest_priority_live live) m) = priority_list m /\
    priority_list (exec as_dicts m) = priority_list m.
Proof.
  intros m live. repeat split; reflexivity.
Qed.

End PriorityProofs.

(* ===================================================================== *)
(** * Properties of noise_reduction.py *)
(* ===================================================================== *)

Module NoiseReductionProofs.

Import NoiseReduction.

(** ** The frame loop of the neural mode *)

Section FrameLoop.

Variable pf : bytes -> bytes.
Variable audio : bytes.
Variable fs : Z.
Hypothesis fs_pos : 0 < fs.

Lemma loop_flat_map (ks : list nat) (init : bytes) :
  fold_left
    (fun cleaned i =>
       let chunk := slice audio i (i + fs) in
       if len chunk <? fs then cleaned ++ chunk else cleaned ++ pf chunk)
    (map (fun k => Z.of_nat k * fs) ks) init
  = init ++ flat_map (emitted pf audio fs) ks.
Proof.
  revert init. induction ks as [|k ks IH]; intros init; simpl.
  - now rewrite app_nil_r.
  - rewrite IH. unfold emitted, frame.
    destruct (len (slice audio (Z.of_nat k * fs) (Z.of_nat k * fs + fs)) <? fs);
      now rewrite <- app_assoc.
Qed.

Lemma frame_firstn_skipn (k : nat) :
  frame audio fs k = firstn (Z.to_nat fs) (skipn (k * Z.to_nat fs) audio).
Proof.
  unfold frame, slice. f_equal.
  - f_equal. lia.
  - f_equal. rewrite Z2Nat.inj_mul by lia. now rewrite Nat2Z.id.
Qed.

Lemma full_frame_length (k : nat) :
  (Z.of_nat k + 1) * fs <= len audio ->
  List.length (frame audio fs k) = Z.to_nat fs.
Proof.
  unfold len. intros H. rewrite frame_firstn_skipn.
  rewrite length_firstn, length_skipn. nia.
Qed.

Lemma full_frame_emitted (k : nat) :
  (Z.of_nat k + 1) * fs <= len audio -> emitted pf audio fs k = pf (frame audio fs k).
Proof.
  intros H. unfold emitted.
  replace (len (frame audio fs k)) with fs; [now rewrite Z.ltb_irrefl|].
  unfold len. rewrite full_frame_length by assumption. lia.
Qed.

Lemma in_seq_full (k : nat) :
  In k (seq 0 (Z.to_nat (len audio / fs))) ->
  (Z.of_nat k + 1) * fs <= len audio.
Proof.
  rewrite in_seq. intros [_ Hk].
  assert (Hq : 0 <= len audio / fs) by (apply Z.div_pos; unfold len; lia).
  assert (Hdm := Z.div_mod (len audio) fs ltac:(lia)).
  assert (Hm := Z.mod_pos_bound (len audio) fs fs_pos).
  nia.
Qed.

Lemma partial_frame_emitted :
  len audio mod fs <> 0 ->
  emitted pf audio fs (Z.to_nat (len audio / fs))
  = skipn (List.length audio - Z.to_nat (len audio mod fs)) audio.
Proof.
  intros Hr.
  assert (Hq : 0 <= len audio / fs) by (apply Z.div_pos; unfold len; lia).
  assert (Hdm := Z.div_mod (len audio) fs ltac:(lia)).
  assert (Hm := Z.mod_pos_bound (len audio) fs fs_pos).
  assert (Hskip : (Z.to_nat (len audio / fs) * Z.to_nat fs
                   = List.length audio - Z.to_nat (len audio mod fs))%nat).
  { unfold len in *. nia. }
  assert (Hf : frame audio fs (Z.to_nat (len audio / fs))
               = skipn (List.length audio - Z.to_nat (len audio mod fs)) audio).
  { rewrite frame_firstn_skipn, Hskip. apply firstn_all2.
    rewrite length_skipn. unfold len in *. lia. }
  unfold emitted. rewrite Hf.
  replace (len (skipn (List.length audio - Z.to_nat (len audio mod fs)) audio)
           <? fs) with true; [reflexivity|].
  symmetry. apply Z.ltb_lt. unfold len at 1. rewrite length_skipn.
  unfold len in *. lia.
Qed.

Lemma range_count_partial :
  len audio mod fs <> 0 ->
  Z.to_nat ((len audio + fs - 1) / fs) = S (Z.to_nat (len audio / fs)).
Proof.
  intros Hr.
  assert (Hq : 0 <= len audio / fs) by (apply Z.div_pos; unfold len; lia).
  assert (Hdm := Z.div_mod (len audio) fs ltac:(lia)).
  assert (Hm := Z.mod_pos_bound (len audio) fs fs_pos).
  replace ((len audio + fs - 1) / fs) with (len audio / fs + 1); [lia|].
  apply (Z.div_unique_pos _ _ _ (len audio mod fs - 1)); lia.
Qed.

Lemma range_count_whole :
  len audio mod fs = 0 ->
  Z.to_nat ((len audio + fs - 1) / fs) = Z.to_nat (len audio / fs).
Proof.
  intros Hr. f_equal.
  assert (Hdm := Z.div_mod (len audio) fs ltac:(lia)).
  symmetry. apply (Z.div_unique_pos _ _ _ (fs - 1)); lia.
Qed.

Lemma full_frames_emitted :
  flat_map (emitted pf audio fs) (seq 0 (Z.to_nat (len audio / fs)))
  = flat_map (fun k => pf (frame audio fs k)) (seq 0 (Z.to_nat (len audio / fs))).
Proof.
  rewrite !flat_map_concat_map. f_equal. apply map_ext_in.
  intros k Hk. apply full_frame_emitted, in_seq_full, Hk.
Qed.

End FrameLoop.

Lemma _reduce_rnnoise_partial (self : NoiseReducer) (rn : RNNoise) (audio : bytes) :
  0 < sample_width self ->
  len audio mod (480 * sample_width self) <> 0 ->
  _reduce_rnnoise self rn audio
  = Ok (flat_map (fun k => process_frame rn (frame audio (480 * sample_width self) k))
          (seq 0 (Z.to_nat (len audio / (480 * sample_width self))))
        ++ skipn (List.length audio
                  - Z.to_nat (len audio mod (480 * sample_width self))) audio).
Proof.
  intros Hw Hr. unfold _reduce_rnnoise, range0.
  assert (Hfs : 0 < 480 * sample_width self) by lia.
  destruct (Z.eqb_spec (480 * sample_width self) 0); [lia|].
  destruct (Z.ltb_spec (480 * sample_width self) 0); [lia|].
  rewrite (loop_flat_map (process_frame rn) audio (480 * sample_width self)).
  rewrite range_count_partial by assumption.
  rewrite seq_S, flat_map_app. simpl. rewrite app_nil_r.
  rewrite full_frames_emitted by assumption.
  now rewrite partial_frame_emitted by assumption.
Qed.

Lemma _reduce_rnnoise_whole (self : NoiseReducer) (rn : RNNoise) (audio : bytes) :
  0 < sample_width self ->
  len audio mod (480 * sample_width self) = 0 ->
  _reduce_rnnoise self rn audio
  = Ok (flat_map (fun k => process_frame rn (frame audio (480 * sample_width self) k))
          (seq 0 (Z.to_nat (len audio / (480 * sample_width self))))).
Proof.
  intros Hw Hr. unfold _reduce_rnnoise, range0.
  assert (Hfs : 0 < 480 * sample_width self) by lia.
  destruct (Z.eqb_spec (480 * sample_width self) 0); [lia|].
  destruct (Z.ltb_spec (480 * sample_width self) 0); [lia|].
  rewrite (loop_flat_map (process_frame rn) audio (480 * sample_width self)).
  rewrite range_count_whole by assumption.
  now rewrite full_frames_emitted by assumption.
Qed.



Lemma frames_cover (audio : bytes) (fs : Z) (n : nat) :
  0 < fs ->
  audio = flat_map (frame audio fs) (seq 0 n) ++ skipn (n * Z.to_nat fs) audio.
Proof.
  intros Hfs. induction n as [|n IH]; [reflexivity|].
  rewrite seq_S, flat_map_app. simpl flat_map. rewrite app_nil_r, <- app_assoc.
  rewrite frame_firstn_skipn by assumption.
  replace (S n * Z.to_nat fs)%nat with (Z.to_nat fs + n * Z.to_nat fs)%nat by lia.
  rewrite <- skipn_skipn, firstn_skipn. exact IH.
Qed.

(** ** The energy gate *)


(** ** Claims about the noise reducer *)



(** C4. Neural mode, positive sample width, input length not a multiple of
    the frame size [480 * sample_width]: the output is the suppressor's
    output for each full frame, in order, followed by the trailing partial
    frame of the input; so the last [len mod frame_size] bytes of the output
    are the last [len mod frame_size] bytes of the input. *)
Theorem neural_partial_frame_passthrough :
  forall (self : NoiseReducer) (rn : RNNoise) (audio : bytes),
    _rn self = Some rn ->
    0 < sample_width self ->
    let fs := 480 * sample_width self in
    len audio mod fs <> 0 ->
    let q := Z.to_nat (len audio / fs) in
    let r := Z.to_nat (len audio mod fs) in
    let tail := skipn (List.length audio - r) audio in
    exists out,
      reduce_noise self audio = Ok out /\
      out = flat_map (fun k => process_frame rn (frame audio fs k)) (seq 0 q)
            ++ tail /\
      (forall k, In k (seq 0 q) -> List.length (frame audio fs k) = Z.to_nat fs) /\
      audio = flat_map (frame audio fs) (seq 0 q) ++ tail /\
      List.length tail = r /\ (0 < r < Z.to_nat fs)%nat /\
      skipn (List.length out - r) out = tail.
Proof.
  intros self rn audio Hrn Hw fs Hr q r tail.
  assert (Hfs : 0 < fs) by (unfold fs; lia).
  assert (Hm := Z.mod_pos_bound (len audio) fs Hfs).
  assert (Hle : len audio mod fs <= len audio)
    by (apply Z.mod_le; unfold len; lia).
  assert (Hlen : List.length tail = r).
  { unfold tail. rewrite length_skipn. unfold r, len in *. lia. }
  eexists. split; [|split; [reflexivity|]].
  - unfold reduce_noise. destruct audio as [|b audio].
    + exfalso. apply Hr. reflexivity.
    + rewrite Hrn. now apply _reduce_rnnoise_partial.
  - split; [|split; [|split; [|split]]].
    + intros k Hk. apply full_frame_length; [assumption|].
      now apply in_seq_full.
    + unfold tail. replace (List.length audio - r)%nat with (q * Z.to_nat fs)%nat.
      * now apply frames_cover.
      * assert (Hq : 0 <= len audio / fs) by (apply Z.div_pos; unfold len; lia).
        assert (Hdm := Z.div_mod (len audio) fs ltac:(lia)).
        unfold q, r, len in *. nia.
    + exact Hlen.
    + unfold r. lia.
    + rewrite length_app, Hlen, Nat.add_sub.
      rewrite skipn_app, skipn_all, Nat.sub_diag. reflexivity.
Qed.

Lemma neural_partial_frame_passthrough_witness :
  reduce_noise (__init__ (Some silencer) 2 350)
    (repeat Byte.x07 961 ++ [Byte.x09; Byte.x0a])
  = Ok (repeat Byte.x00 960 ++ [Byte.x07; Byte.x09; Byte.x0a]).
Proof.
  assert (Hw : 0 < sample_width (__init__ (Some silencer) 2 350))
    by (simpl; lia).
  pose proof (neural_partial_frame_passthrough (__init__ (Some silencer) 2 350)
                silencer (repeat Byte.x07 961 ++ [Byte.x09; Byte.x0a])
                eq_refl Hw) as H.
  cbv zeta in H. destruct H as (out & Hrun & Hout & _).
  - vm_compute. discriminate.
  - rewrite Hrun, Hout. vm_compute. reflexivity.
Defined.




End NoiseReductionProofs.

(* ===================================================================== *)
(** * Properties of stream_sender.py *)
(* ===================================================================== *)

Module StreamSenderProofs.

Import StreamSender.

Lemma mark_started_last (l : list thread_state) :
  mark_started (List.length l) (l ++ [Created]) = l ++ [Started].
Proof.
  induction l as [|x l IH]; simpl; [reflexivity | now rewrite IH].
Qed.

Lemma set_running_same (self : LiveStreamSender) :
  set_running (_running self) self = self.
Proof. now destruct self. Qed.

Lemma start_when_running (self : LiveStreamSender) (rt : Runtime) :
  _running self = true -> start (self, rt) = (Ok tt, (self, rt)).
Proof.
  intros H. unfold start, bind, get, ret. simpl. now rewrite H.
Qed.

Lemma start_when_idle (self : LiveStreamSender) (rt : Runtime) :
  _running self = false ->
  start (self, rt)
  = (Ok tt, (set_thread (Some (List.length (threads rt))) (set_running true self),
             mkRuntime (threads rt ++ [Started]) (joins rt))).
Proof.
  intros H. unfold start, bind, get, modify. simpl. rewrite H. simpl.
  unfold Thread_start. simpl. now rewrite mark_started_last.
Qed.

(** [start] never raises, whatever the session and the threads. *)
Lemma start_returns (st : Session) : eval start st = Ok tt.
Proof.
  destruct st as [self rt]. unfold eval.
  destruct (_running self) eqn:H.
  - now rewrite start_when_running.
  - now rewrite start_when_idle.
Qed.

(** C7. [start] on a running session changes nothing; two [start] calls in
    a row on an idle session create and start one thread, the one [_thread]
    names; [stop] on a session that was never started returns and changes
    nothing (no thread is joined). *)
Theorem start_twice_one_worker_stop_unstarted_noop :
  (forall (self : LiveStreamSender) (rt : Runtime),
     _running self = true -> start (self, rt) = (Ok tt, (self, rt))) /\
  (forall (self : LiveStreamSender) (rt : Runtime),
     _running self = false ->
     let st1 := exec start (self, rt) in
     let st2 := exec start st1 in
     eval start (self, rt) = Ok tt /\ eval start st1 = Ok tt /\
     st2 = st1 /\
     threads (snd st2) = threads rt ++ [Started] /\
     _thread (fst st2) = Some (List.length (threads rt)) /\
     _running (fst st2) = true) /\
  (forall (self : LiveStreamSender) (rt : Runtime),
     _running self = false -> _thread self = None ->
     stop (self, rt) = (Ok tt, (self, rt))) /\
  (forall rn h p ca rt,
     stop (__init__ rn h p ca, rt) = (Ok tt, (__init__ rn h p ca, rt)) /\
     threads (snd (exec start (exec start (__init__ rn h p ca, no_threads))))
       = [Started]).
Proof.
  split; [exact start_when_running|]. split; [|split].
  - intros self rt H st1 st2. unfold st2, st1, exec, eval.
    rewrite (start_when_idle self rt H). cbn [fst snd].
    rewrite start_when_running by reflexivity. cbn [fst snd]. repeat split.
  - intros self rt Hr Ht. unfold stop, bind, modify, get, ret. simpl.
    rewrite <- Hr at 1. rewrite set_running_same, Ht. reflexivity.
  - intros rn h p ca rt. split; reflexivity.
Qed.

Lemma start_twice_one_worker_stop_unstarted_noop_witness :
  let s0 := __init__ None "relay.example" 5000 None in
  exec start (exec start (s0, no_threads)) = exec start (s0, no_threads) /\
  threads (snd (exec start (exec start (s0, no_threads)))) = [Started] /\
  start (exec start (s0, no_threads)) = (Ok tt, exec start (s0, no_threads)) /\
  stop (s0, no_threads) = (Ok tt, (s0, no_threads)).
Proof.
  intros s0.
  destruct start_twice_one_worker_stop_unstarted_noop
    as (Hrun & Hidle & Hstop & _).
  destruct (Hidle s0 no_threads eq_refl) as (_ & _ & Hsame & Hthreads & _).
  split; [exact Hsame|]. split; [exact Hthreads|]. split.
  - apply (Hrun (fst (exec start (s0, no_threads)))
                (snd (exec start (s0, no_threads)))). reflexivity.
  - apply (Hstop s0 no_threads); reflexivity.
Defined.

End StreamSenderProofs.

(* ===================================================================== *)
(** * Properties of main.py *)
(* ===================================================================== *)

Module MainProofs.

Import Main.







(** C8, on the code.  [start] returns normally whatever the device and the
    network will do.  With a valid port [start_azaan] reports "Broadcasting
    live" and returns; the refused connection, the device that cannot be
    opened and the certificate mismatch end the worker thread with an
    exception nobody catches, while the sender still counts as running.
    Only the invalid port value reaches the caller. *)
Theorem start_azaan_reports_live_when_worker_fails :
  (forall st : StreamSender.Session, eval StreamSender.start st = Ok tt) /\
  (let final := exec (start_azaan offline_env "relay.example" "5000" "") maulvi_app in
   eval (start_azaan offline_env "relay.example" "5000" "") maulvi_app = Ok tt /\
   stream_status final = "Broadcasting live" /\
   StreamSender.threads (runtime final) = [StreamSender.Started] /\
   exists s,
     sender final = Some s /\ StreamSender._running s = true /\
     (forall fuel,
        StreamSender._run_stream unreachable s fuel
        = ([StreamSender.MicOpened; StreamSender.MicStopped;
            StreamSender.MicClosed; StreamSender.PaTerminated],
           StreamSender.Uncaught refused)) /\
     (forall fuel,
        StreamSender._run_stream no_device s fuel
        = ([], StreamSender.Uncaught
                 (OSError "[Errno -9996] Invalid input device (no default output device)"))) /\
     (forall fuel,
        snd (StreamSender._run_stream bad_certificate s fuel)
        = StreamSender.Uncaught
            (OSError "[SSL: CERTIFICATE_VERIFY_FAILED] certificate verify failed"))) /\
  stream_status (exec (start_azaan offline_env "relay.example" "50o0" "") maulvi_app)
    = "Start failed: invalid literal for int() with base 10: '50o0'".
Proof.
  split; [exact StreamSenderProofs.start_returns|]. split; [|reflexivity].
  cbv zeta. split; [reflexivity|]. split; [reflexivity|]. split; [reflexivity|].
  eexists. split; [reflexivity|]. split; [reflexivity|].
  split; [|split]; intros fuel; reflexivity.
Qed.

End MainProofs.

(* ===================================================================== *)
(** * Further properties of priority.py *)
(* ===================================================================== *)

Module RegistryProofs.

Import Priority PriorityProofs Registry.

Lemma le_antisym (a b : MasjidPriority) : le a b -> le b a -> a = b.
Proof.
  unfold le, lt. intros Hab Hba. apply tuple_compare_eq.
  rewrite (tuple_compare_antisym b a) in Hab.
  destruct (tuple_compare a b); simpl in *; congruence.
Qed.

(** A list has one sorted arrangement. *)
Lemma sorted_arrangement_unique (l1 : list MasjidPriority) :
  forall l2, StronglySorted le l1 -> StronglySorted le l2 ->
             Permutation l1 l2 -> l1 = l2.
Proof.
  induction l1 as [|a t1 IH]; intros l2 H1 H2 Hp.
  - apply Permutation_nil in Hp. now subst.
  - destruct l2 as [|b t2].
    + apply Permutation_sym, Permutation_nil in Hp. discriminate.
    + apply StronglySorted_inv in H1. destruct H1 as [Hs1 Ha].
      apply StronglySorted_inv in H2. destruct H2 as [Hs2 Hb].
      rewrite Forall_forall in Ha, Hb.
      assert (Hab : a = b).
      { assert (Hin_a : In a (b :: t2))
          by (eapply Permutation_in; [exact Hp | now left]).
        assert (Hin_b : In b (a :: t1))
          by (eapply Permutation_in; [apply Permutation_sym, Hp | now left]).
        destruct Hin_a as [E|Hin_a]; [now subst|].
        destruct Hin_b as [E|Hin_b]; [now subst|].
        apply le_antisym; auto. }
      subst b. f_equal. apply IH; auto.
      now apply Permutation_cons_inv in Hp.
Qed.

Lemma sorted_of_perm (l1 l2 : list MasjidPriority) :
  Permutation l1 l2 -> sorted l1 = sorted l2.
Proof.
  intros Hp. apply sorted_arrangement_unique; try apply sorted_sorted.
  eapply Permutation_trans; [apply sorted_perm|].
  eapply Permutation_trans; [exact Hp | apply Permutation_sym, sorted_perm].
Qed.

Lemma sorted_fixes_sorted (l : list MasjidPriority) :
  StronglySorted le l -> sorted l = l.
Proof.
  intros H. apply sorted_arrangement_unique; auto using sorted_sorted, sorted_perm.
Qed.

Lemma filter_filter_comm (f g : MasjidPriority -> bool) (l : list MasjidPriority) :
  filter f (filter g l) = filter g (filter f l).
Proof.
  induction l as [|x t IH]; simpl; [reflexivity|].
  destruct (f x) eqn:Hf, (g x) eqn:Hg; simpl; rewrite ?Hf, ?Hg, IH; reflexivity.
Qed.

Lemma filter_idem (f : MasjidPriority -> bool) (l : list MasjidPriority) :
  filter f (filter f l) = filter f l.
Proof.
  induction l as [|x t IH]; simpl; [reflexivity|].
  destruct (f x) eqn:Hf; simpl; rewrite ?Hf, IH; reflexivity.
Qed.

Lemma set_priority_state (mid : string) (prio : Z) (en : bool) (m : PriorityManager) :
  exec (set_priority mid prio en) m
  = mkPriorityManager
      (sorted (filter (other mid) (priority_list m) ++ [mkMasjidPriority prio mid en])).
Proof. reflexivity. Qed.

(** The entries kept by a later [set_priority other_id], up to order. *)
Lemma filter_after_set_priority (mid mid' : string) (prio : Z) (en : bool)
    (l : list MasjidPriority) :
  Permutation
    (filter (other mid')
       (sorted (filter (other mid) l ++ [mkMasjidPriority prio mid en])))
    (filter (other mid') (filter (other mid) l)
     ++ filter (other mid') [mkMasjidPriority prio mid en]).
Proof.
  rewrite <- filter_app. apply filter_perm, sorted_perm.
Qed.

(** Entries with pairwise distinct ids keep their relative order when only
    the flags change. *)
Lemma le_flags_irrelevant (a b a' b' : MasjidPriority) :
  masjid_id a <> masjid_id b ->
  priority a' = priority a -> masjid_id a' = masjid_id a ->
  priority b' = priority b -> masjid_id b' = masjid_id b ->
  le a b -> le a' b'.
Proof.
  unfold le, lt, tuple_compare. intros Hne -> -> -> ->.
  destruct (priority b ?= priority a); auto.
  destruct (String.compare (masjid_id b) (masjid_id a)) eqn:E; auto.
  apply String.compare_eq_iff in E. congruence.
Qed.

Lemma with_enabled_fields (mid : string) (en : bool) (p : MasjidPriority) :
  priority (with_enabled mid en p) = priority p /\
  masjid_id (with_enabled mid en p) = masjid_id p.
Proof.
  unfold with_enabled. destruct (masjid_id p =? mid)%string; auto.
Qed.

Lemma set_enabled_keeps_sorted (mid : string) (en : bool) (l : list MasjidPriority) :
  NoDup (map masjid_id l) -> StronglySorted le l ->
  StronglySorted le (set_enabled_loop mid en l).
Proof.
  intros Hnd Hs. rewrite set_enabled_loop_unique by assumption.
  induction Hs as [|a t Hs IH Ha]; simpl; [constructor|].
  inversion Hnd as [|? ? Hnotin Hnd']; subst.
  constructor; [now apply IH|].
  rewrite Forall_forall in *. intros b' Hb'.
  apply in_map_iff in Hb'. destruct Hb' as [b [<- Hb]].
  destruct (with_enabled_fields mid en a) as [Hpa Hia].
  destruct (with_enabled_fields mid en b) as [Hpb Hib].
  apply (le_flags_irrelevant a b); auto.
  intros E. apply Hnotin. rewrite E. now apply in_map.
Qed.

Lemma set_priority_unique (mid : string) (prio : Z) (en : bool) (m : PriorityManager) :
  unique_ids m -> unique_ids (exec (set_priority mid prio en) m).
Proof.
  intros Hm. unfold unique_ids. eapply Permutation_NoDup.
  - apply Permutation_map, Permutation_sym, set_priority_perm.
  - simpl. constructor; [apply filter_other_ids | now apply NoDup_map_filter].
Qed.

(** X1. Every registry reached from the empty one by [set_priority] and
    [set_enabled] calls holds at most one entry per id and is stored in sort
    order, so [as_dicts] exports the stored list as it stands and
    [highest_priority_live] scans it as it stands. *)
Theorem reachable_registry_sorted_and_unique :
  forall (cs : list call) (live : list string),
    let m := after cs __init__ in
    unique_ids m /\
    StronglySorted key_le (priority_list m) /\
    eval as_dicts m = Ok (map to_dict (priority_list m)) /\
    eval (highest_priority_live live) m
      = Ok (highest_loop live (priority_list m)).
Proof.
  intros cs live m.
  assert (Hinv : unique_ids m /\ StronglySorted le (priority_list m)).
  { unfold m, after.
    assert (H0 : unique_ids __init__ /\ StronglySorted le (priority_list __init__))
      by (split; constructor).
    revert H0. generalize __init__. induction cs as [|c cs IH]; intros m0 H0.
    - exact H0.
    - simpl. apply IH. destruct H0 as [Hu Hs]. destruct c as [mid prio en|mid en].
      + split; [now apply set_priority_unique|].
        simpl perform. rewrite set_priority_state. apply sorted_sorted.
      + split.
        * unfold unique_ids. simpl. now rewrite set_enabled_loop_ids.
        * simpl. now apply set_enabled_keeps_sorted. }
  destruct Hinv as [Hu Hs]. split; [exact Hu|]. split.
  - rewrite <- (sorted_fixes_sorted _ Hs). apply sorted_key_sorted.
  - unfold eval, as_dicts, highest_priority_live, bind, get, ret. simpl.
    now rewrite (sorted_fixes_sorted _ Hs).
Qed.

(** X2. The answers of the two queries depend on the entries held, not on
    the order they are stored in. *)
Theorem queries_ignore_stored_order :
  forall (m m' : PriorityManager) (live : list string),
    Permutation (priority_list m) (priority_list m') ->
    eval (highest_priority_live live) m = eval (highest_priority_live live) m' /\
    eval as_dicts m = eval as_dicts m'.
Proof.
  intros m m' live Hp.
  unfold eval, as_dicts, highest_priority_live, bind, get, ret. simpl.
  now rewrite (sorted_of_perm _ _ Hp).
Qed.

Lemma queries_ignore_stored_order_witness :
  eval (highest_priority_live ["c"; "b"])
    (mkPriorityManager [mkMasjidPriority 2 "b" true; mkMasjidPriority 1 "c" true])
  = eval (highest_priority_live ["c"; "b"])
      (mkPriorityManager [mkMasjidPriority 1 "c" true; mkMasjidPriority 2 "b" true]).
Proof.
  apply (queries_ignore_stored_order
           (mkPriorityManager [mkMasjidPriority 2 "b" true; mkMasjidPriority 1 "c" true])
           (mkPriorityManager [mkMasjidPriority 1 "c" true; mkMasjidPriority 2 "b" true])).
  simpl. apply perm_swap.
Defined.

(** X3. [set_priority] calls for two different ids commute: either order
    leaves the same registry. *)
Theorem set_priority_distinct_ids_commute :
  forall (m : PriorityManager) (mid1 mid2 : string) (p1 p2 : Z) (e1 e2 : bool),
    mid1 <> mid2 ->
    exec (set_priority mid1 p1 e1) (exec (set_priority mid2 p2 e2) m)
    = exec (set_priority mid2 p2 e2) (exec (set_priority mid1 p1 e1) m).
Proof.
  intros m mid1 mid2 p1 p2 e1 e2 Hne.
  rewrite !set_priority_state. simpl priority_list. f_equal.
  apply sorted_of_perm.
  assert (H12 : filter (other mid1) [mkMasjidPriority p2 mid2 e2]
                = [mkMasjidPriority p2 mid2 e2]).
  { simpl. unfold other. simpl.
    destruct (String.eqb_spec mid2 mid1); [congruence | reflexivity]. }
  assert (H21 : filter (other mid2) [mkMasjidPriority p1 mid1 e1]
                = [mkMasjidPriority p1 mid1 e1]).
  { simpl. unfold other. simpl.
    destruct (String.eqb_spec mid1 mid2); [congruence | reflexivity]. }
  eapply Permutation_trans.
  { apply Permutation_app_tail, filter_after_set_priority. }
  rewrite H12.
  eapply Permutation_trans.
  2:{ apply Permutation_sym, Permutation_app_tail, filter_after_set_priority. }
  rewrite H21, (filter_filter_comm (other mid1) (other mid2)).
  rewrite <- !app_assoc. apply Permutation_app_head. apply perm_swap.
Qed.

Lemma set_priority_distinct_ids_commute_witness :
  exec (set_priority "a" 3 true) (exec (set_priority "b" 1 false) registry_x)
  = exec (set_priority "b" 1 false) (exec (set_priority "a" 3 true) registry_x).
Proof.
  apply set_priority_distinct_ids_commute. discriminate.
Defined.

(** X4. The last [set_priority] for an id wins: a second call for the same
    id leaves the registry the second call alone would leave. *)
Theorem set_priority_last_call_wins :
  forall (m : PriorityManager) (mid : string) (p1 p2 : Z) (e1 e2 : bool),
    exec (set_priority mid p2 e2) (exec (set_priority mid p1 e1) m)
    = exec (set_priority mid p2 e2) m.
Proof.
  intros m mid p1 p2 e1 e2.
  rewrite !set_priority_state. simpl priority_list. f_equal.
  apply sorted_of_perm. apply Permutation_app_tail.
  eapply Permutation_trans; [apply filter_after_set_priority|].
  rewrite filter_idem. simpl. unfold other at 2. simpl.
  rewrite String.eqb_refl. simpl. now rewrite app_nil_r.
Qed.

(** X5. With at most one entry per id, an id that [set_enabled] has just
    disabled is not the answer of [highest_priority_live], whatever is
    live. *)
Theorem disabled_id_never_selected :
  forall (m : PriorityManager) (mid : string) (live : list string),
    unique_ids m ->
    eval (highest_priority_live live) (exec (set_enabled mid false) m)
    <> Ok (Some mid).
Proof.
  intros m mid live Hu.
  unfold eval, highest_priority_live, bind, get, ret, exec, set_enabled, modify.
  simpl. rewrite set_enabled_loop_unique by exact Hu.
  generalize (highest_loop_first live
                (sorted (map (with_enabled mid false) (priority_list m)))).
  destruct (highest_loop live _) as [g|]; [|discriminate].
  intros (before & p & after & Hs & Hg & Hq & _) Heq.
  injection Heq as Heq. subst g.
  assert (Hin : In p (map (with_enabled mid false) (priority_list m))).
  { eapply Permutation_in; [apply sorted_perm|]. rewrite Hs.
    apply in_or_app. right. now left. }
  apply in_map_iff in Hin. destruct Hin as [q [Hq' _]].
  apply qualifies_iff in Hq. destruct Hq as [Hen _].
  unfold with_enabled in Hq'.
  destruct (String.eqb_spec (masjid_id q) mid) as [E|E]; subst p; simpl in *.
  - discriminate.
  - congruence.
Qed.

Lemma disabled_id_never_selected_witness :
  eval (highest_priority_live ["x"; "a"]) (exec (set_enabled "a" false) registry_x)
  <> Ok (Some "a").
Proof.
  apply disabled_id_never_selected.
  unfold unique_ids, registry_x. simpl.
  constructor; [simpl; intros [E|[]]; discriminate E|].
  constructor; [simpl; tauto | constructor].
Defined.

End RegistryProofs.

(* ===================================================================== *)
(** * Further properties of noise_reduction.py *)
(* ===================================================================== *)

Module NoiseGateProofs.

Import NoiseReduction NoiseReductionProofs.

(** ** When [audioop.rms] answers *)

Lemma audioop_rms_ok_inv (fragment : bytes) (width rms : Z) :
  audioop_rms fragment width = Ok rms ->
  1 <= width <= 4 /\ len fragment mod width = 0 /\ 0 <= rms.
Proof.
  unfold audioop_rms.
  destruct (Z.ltb_spec width 1); [discriminate|].
  destruct (Z.ltb_spec 4 width); [discriminate|]. simpl.
  destruct (Z.eqb_spec (len fragment mod width) 0); [|discriminate]. simpl.
  destruct (len fragment =? 0); intros Hok; injection Hok as <-;
    repeat split; try lia. apply Z.sqrt_nonneg.
Qed.



(** ** Silence has loudness 0 *)

Lemma le_unsigned_zeros (n : nat) : le_unsigned (repeat Byte.x00 n) = 0.
Proof. induction n as [|n IH]; simpl; [reflexivity | rewrite IH; reflexivity]. Qed.

Lemma sample_zeros (w : nat) : (0 < w)%nat -> sample (repeat Byte.x00 w) = 0.
Proof.
  intros Hw. unfold sample. rewrite le_unsigned_zeros.
  unfold len. rewrite repeat_length.
  replace (8 * Z.of_nat w) with (1 + (8 * Z.of_nat w - 1)) by lia.
  rewrite Z.pow_add_r by lia. rewrite Z.mul_comm, Z.div_mul by lia.
  assert (0 < 2 ^ (8 * Z.of_nat w - 1)) by (apply Z.pow_pos_nonneg; lia).
  destruct (Z.ltb_spec 0 (2 ^ (8 * Z.of_nat w - 1))); [reflexivity | lia].
Qed.

Lemma samples_zeros (w : nat) :
  (0 < w)%nat ->
  forall fuel k,
    Forall (fun v => v = 0) (samples fuel w (repeat Byte.x00 (k * w))).
Proof.
  intros Hw. induction fuel as [|fuel IH]; intros k; simpl; [constructor|].
  destruct k as [|k]; simpl; [constructor|].
  rewrite repeat_app.
  destruct (repeat Byte.x00 w ++ repeat Byte.x00 (k * w)) eqn:E.
  - constructor.
  - rewrite <- E. constructor.
    + rewrite firstn_app, repeat_length, Nat.sub_diag. simpl.
      rewrite app_nil_r, firstn_all2 by (rewrite repeat_length; lia).
      now apply sample_zeros.
    + rewrite skipn_app, repeat_length, Nat.sub_diag. simpl.
      rewrite skipn_all2 by (rewrite repeat_length; lia). simpl. apply IH.
Qed.

Lemma sum_zero_squares (l : list Z) :
  Forall (fun v => v = 0) l ->
  fold_left (fun acc v => acc + v * v) l 0 = 0.
Proof.
  induction 1 as [|v l Hv _ IH]; simpl; [reflexivity|]. now subst.
Qed.

Lemma audioop_rms_zeros (n : nat) (width : Z) :
  1 <= width <= 4 -> Z.of_nat n mod width = 0 ->
  audioop_rms (repeat Byte.x00 n) width = Ok 0.
Proof.
  intros Hw Hm. unfold audioop_rms.
  destruct (Z.ltb_spec width 1); [lia|].
  destruct (Z.ltb_spec 4 width); [lia|]. simpl.
  unfold len. rewrite repeat_length, Hm. simpl.
  destruct (Z.of_nat n =? 0); [reflexivity|].
  unfold sum_squares. rewrite repeat_length.
  assert (Hk : n = (Z.to_nat (Z.of_nat n / width) * Z.to_nat width)%nat).
  { assert (Hq : 0 <= Z.of_nat n / width) by (apply Z.div_pos; lia).
    assert (Hdm := Z.div_mod (Z.of_nat n) width ltac:(lia)). nia. }
  rewrite Hk at 2.
  rewrite sum_zero_squares by (apply samples_zeros; lia).
  reflexivity.
Qed.



(** X7. The energy gate is idempotent: conditioning an output of the gate
    again returns it unchanged (silence stays silence, a passed chunk
    passes again). *)
Theorem gate_idempotent :
  forall (self : NoiseReducer) (audio out : bytes),
    _rn self = None ->
    reduce_noise self audio = Ok out ->
    reduce_noise self out = Ok out.
Proof.
  intros self audio out Hrn Hrun.
  destruct audio as [|b audio].
  - simpl in Hrun. injection Hrun as <-. reflexivity.
  - unfold reduce_noise in Hrun. rewrite Hrn in Hrun.
    unfold _reduce_noise_gate in Hrun.
    destruct (audioop_rms (b :: audio) (sample_width self)) as [rms|e] eqn:Hrms;
      [|discriminate].
    destruct (audioop_rms_ok_inv _ _ _ Hrms) as (Hw & Hm & Hpos).
    destruct (Z.ltb_spec rms (gate_threshold self)) as [Hlt|Hge].
    + injection Hrun as <-. simpl repeat.
      unfold reduce_noise. rewrite Hrn. unfold _reduce_noise_gate.
      change (Byte.x00 :: repeat Byte.x00 (List.length audio))
        with (repeat Byte.x00 (S (List.length audio))).
      rewrite audioop_rms_zeros by assumption.
      destruct (Z.ltb_spec 0 (gate_threshold self)); [|lia].
      now rewrite repeat_length.
    + injection Hrun as <-.
      unfold reduce_noise. rewrite Hrn. unfold _reduce_noise_gate.
      rewrite Hrms. destruct (Z.ltb_spec rms (gate_threshold self)); [lia|].
      reflexivity.
Qed.

Lemma gate_idempotent_witness :
  reduce_noise (default None) [Byte.x00; Byte.x00] = Ok [Byte.x00; Byte.x00].
Proof.
  apply (gate_idempotent (default None) [Byte.x5d; Byte.x01]); reflexivity.
Defined.



(** ** The neural mode *)

(** X9. Neural mode, positive sample width, input a whole number of
    frames: the frames partition the input, each has the frame size, and the
    output is the suppressor's output for each of them in order; no byte
    passes unprocessed. *)
Theorem neural_whole_frames_all_processed :
  forall (self : NoiseReducer) (rn : RNNoise) (audio : bytes),
    _rn self = Some rn ->
    0 < sample_width self ->
    let fs := 480 * sample_width self in
    len audio mod fs = 0 ->
    let q := Z.to_nat (len audio / fs) in
    reduce_noise self audio
      = Ok (flat_map (fun k => process_frame rn (frame audio fs k)) (seq 0 q)) /\
    audio = flat_map (frame audio fs) (seq 0 q) /\
    (forall k, In k (seq 0 q) -> List.length (frame audio fs k) = Z.to_nat fs).
Proof.
  intros self rn audio Hrn Hw fs Hr q.
  assert (Hfs : 0 < fs) by (unfold fs; lia).
  assert (Hq : 0 <= len audio / fs) by (apply Z.div_pos; unfold len; lia).
  assert (Hdm := Z.div_mod (len audio) fs ltac:(lia)).
  split; [|split].
  - destruct audio as [|b audio]; [reflexivity|].
    unfold reduce_noise. rewrite Hrn. now apply _reduce_rnnoise_whole.
  - rewrite (frames_cover audio fs q Hfs) at 1.
    rewrite skipn_all2; [now rewrite app_nil_r|].
    unfold q, len in *. nia.
  - intros k Hk. apply full_frame_length; [assumption|].
    now apply in_seq_full.
Qed.

Lemma neural_whole_frames_all_processed_witness :
  reduce_noise (default (Some silencer)) (repeat Byte.x07 1920)
  = Ok (repeat Byte.x00 1920).
Proof.
  assert (Hw : 0 < sample_width (default (Some silencer))) by (simpl; lia).
  pose proof (neural_whole_frames_all_processed (default (Some silencer))
                silencer (repeat Byte.x07 1920) eq_refl Hw) as H.
  cbv zeta in H. destruct H as (Hrun & _).
  - vm_compute. reflexivity.
  - rewrite Hrun. vm_compute. reflexivity.
Defined.

(** X10. Neural mode, positive sample width: a non-empty chunk shorter than
    one frame comes back unchanged, whatever the suppressor is. *)
Theorem neural_short_chunk_unchanged :
  forall (self : NoiseReducer) (rn : RNNoise) (audio : bytes),
    _rn self = Some rn ->
    0 < len audio < 480 * sample_width self ->
    reduce_noise self audio = Ok audio.
Proof.
  intros self rn audio Hrn Hlen.
  destruct audio as [|b audio]; [reflexivity|].
  unfold reduce_noise. rewrite Hrn.
  rewrite _reduce_rnnoise_partial.
  - rewrite Z.div_small, Z.mod_small by lia.
    change (Z.to_nat 0) with 0%nat. cbn [seq flat_map app].
    unfold len. rewrite Nat2Z.id, Nat.sub_diag. reflexivity.
  - lia.
  - rewrite Z.mod_small; lia.
Qed.

Lemma neural_short_chunk_unchanged_witness :
  reduce_noise (default (Some silencer)) [Byte.x07; Byte.x09]
  = Ok [Byte.x07; Byte.x09].
Proof.
  apply (neural_short_chunk_unchanged (default (Some silencer)) silencer);
    [reflexivity | unfold len; simpl; lia].
Defined.

(** X11. Neural mode with a sample width that is not positive, on a
    non-empty chunk: width 0 makes [range] raise a [ValueError]; a negative
    width makes the loop run zero times, and the answer is the empty bytes,
    so the whole chunk is lost. *)
Theorem neural_nonpositive_width :
  forall (self : NoiseReducer) (rn : RNNoise) (audio : bytes),
    _rn self = Some rn -> audio <> [] ->
    (sample_width self = 0 ->
     reduce_noise self audio = Raise (ValueError "range() arg 3 must not be zero")) /\
    (sample_width self < 0 -> reduce_noise self audio = Ok []).
Proof.
  intros self rn audio Hrn Hne. destruct audio as [|b audio]; [congruence|].
  unfold reduce_noise. rewrite Hrn. unfold _reduce_rnnoise, range0. split.
  - intros ->. reflexivity.
  - intros Hw.
    destruct (Z.eqb_spec (480 * sample_width self) 0); [lia|].
    destruct (Z.ltb_spec (480 * sample_width self) 0); [reflexivity | lia].
Qed.

Lemma neural_nonpositive_width_witness :
  reduce_noise (__init__ (Some silencer) (-2) 350) [Byte.x07; Byte.x09] = Ok [].
Proof.
  refine (proj2 (neural_nonpositive_width (__init__ (Some silencer) (-2) 350)
                   silencer [Byte.x07; Byte.x09] eq_refl _) _).
  - discriminate.
  - simpl; lia.
Defined.

End NoiseGateProofs.

(* ===================================================================== *)
(** * Further properties of stream_sender.py *)
(* ===================================================================== *)

Module StreamTraceProofs.

Import StreamSender StreamSenderProofs StreamTrace.

Lemma unit_result (r : result unit) : (exists e, r = Raise e) \/ r = Ok tt.
Proof. destruct r as [[]|e]; eauto. Qed.

(** ** The loop *)

Lemma stream_loop_stops (w : Surroundings) (self : LiveStreamSender)
    (fuel i : nat) :
  running_at w i = false ->
  stream_loop w self (S fuel) i = ([], Returned).
Proof. intros H. simpl. now rewrite H. Qed.

Lemma stream_loop_step (w : Surroundings) (self : LiveStreamSender)
    (fuel i : nat) (chunk cleaned : bytes) :
  iteration_ok w self i chunk cleaned ->
  stream_loop w self (S fuel) i
  = (Sent cleaned :: fst (stream_loop w self fuel (S i)),
     snd (stream_loop w self fuel (S i))).
Proof.
  intros (Hrun & Hread & Hclean & Hsend). simpl.
  rewrite Hrun, Hread, Hclean, Hsend. simpl.
  now destruct (stream_loop w self fuel (S i)).
Qed.

Lemma stream_loop_fails (w : Surroundings) (self : LiveStreamSender)
    (fuel i : nat) (e : exn) :
  iteration_fails w self i e ->
  stream_loop w self (S fuel) i = ([], Uncaught e).
Proof.
  intros (Hrun & [Hread | [(chunk & Hread & Hclean)
                          | (chunk & cleaned & Hread & Hclean & Hsend)]]);
    simpl; rewrite Hrun, Hread; simpl; try reflexivity;
    rewrite Hclean; try reflexivity; now rewrite Hsend.
Qed.

(** [n] good iterations from [i], then whatever the loop does from
    [i + n]. *)
Lemma stream_loop_prefix (w : Surroundings) (self : LiveStreamSender)
    (chunk cleaned : nat -> bytes) (n : nat) :
  forall i fuel,
    (forall j, (i <= j < i + n)%nat ->
               iteration_ok w self j (chunk j) (cleaned j)) ->
    stream_loop w self (n + fuel) i
    = (map (fun j => Sent (cleaned j)) (seq i n)
         ++ fst (stream_loop w self fuel (i + n)),
       snd (stream_loop w self fuel (i + n))).
Proof.
  induction n as [|n IH]; intros i fuel Hok.
  - simpl. rewrite Nat.add_0_r. now destruct (stream_loop w self fuel i).
  - change (S n + fuel)%nat with (S (n + fuel)).
    rewrite (stream_loop_step w self (n + fuel) i (chunk i) (cleaned i))
      by (apply Hok; lia).
    rewrite IH by (intros j Hj; apply Hok; lia).
    replace (S i + n)%nat with (i + S n)%nat by lia. reflexivity.
Qed.

Lemma payloads_app (l1 l2 : list event) :
  payloads (l1 ++ l2) = payloads l1 ++ payloads l2.
Proof.
  induction l1 as [|e l1 IH]; simpl; [reflexivity|].
  destruct e; simpl; rewrite IH; reflexivity.
Qed.

Lemma payloads_sent (cleaned : nat -> bytes) (ks : list nat) :
  payloads (map (fun j => Sent (cleaned j)) ks) = map cleaned ks.
Proof.
  induction ks as [|k ks IH]; simpl; [reflexivity | now rewrite IH].
Qed.

(** The worker once device, context, connection and handshake are there. *)
Lemma _run_stream_after_setup (w : Surroundings) (self : LiveStreamSender)
    (fuel : nat) :
  setup_ok w self ->
  snd (stream_loop w self fuel 0) <> StillRunning ->
  _run_stream w self fuel
  = (MicOpened :: Connected :: Secured :: fst (stream_loop w self fuel 0)
       ++ [SecureSocketClosed; SocketClosed; MicStopped; MicClosed; PaTerminated],
     snd (stream_loop w self fuel 0)).
Proof.
  intros (Hpa & Hopen & Hctx & Hconn & Hwrap) Hfin.
  unfold _run_stream, stream_connected.
  rewrite Hpa, Hopen, Hctx, Hconn, Hwrap.
  destruct (stream_loop w self fuel 0) as [evs fin]. simpl in *.
  destruct fin; try congruence; simpl; rewrite <- app_assoc; reflexivity.
Qed.

(** X12. The worker releases what it holds.  If [PyAudio()] or [pa.open]
    raises, nothing was opened and nothing is released (the [PyAudio]
    instance is not terminated when only [pa.open] fails).  If the device was
    opened and the worker has ended, normally or not, its trace starts with
    the opening of the device and ends with stop, close and terminate; and a
    connection that was made has been closed by then. *)
Theorem worker_releases_device_and_socket :
  forall (w : Surroundings) (self : LiveStreamSender) (fuel : nat),
    (forall e, PyAudio w = Raise e ->
               _run_stream w self fuel = ([], Uncaught e)) /\
    (forall e, PyAudio w = Ok tt -> pa_open w = Raise e ->
               _run_stream w self fuel = ([], Uncaught e)) /\
    (PyAudio w = Ok tt -> pa_open w = Ok tt ->
     snd (_run_stream w self fuel) <> StillRunning ->
     exists evs,
       fst (_run_stream w self fuel)
       = MicOpened :: evs ++ [MicStopped; MicClosed; PaTerminated] /\
       (In Connected evs -> In SocketClosed evs)).
Proof.
  intros w self fuel. split; [|split].
  - intros e H. unfold _run_stream. now rewrite H.
  - intros e H1 H2. unfold _run_stream. now rewrite H1, H2.
  - intros H1 H2. unfold _run_stream. rewrite H1, H2.
    unfold stream_connected.
    destruct (create_default_context w (ca_cert self)) as [[]|e].
    2:{ intros _. exists []. split; [reflexivity | intros []]. }
    destruct (create_connection w (host self) (port self)) as [[]|e].
    2:{ intros _. exists []. split; [reflexivity | intros []]. }
    destruct (wrap_socket w (host self)) as [[]|e].
    2:{ intros _. exists [Connected; SocketClosed].
        split; [reflexivity | intros _; simpl; auto]. }
    destruct (stream_loop w self fuel 0) as [evs fin].
    destruct fin; simpl; intros Hfin; try congruence;
      exists (Connected :: Secured :: evs ++ [SecureSocketClosed; SocketClosed]);
      (split; [reflexivity|]); intros _;
      right; right; apply in_or_app; right; simpl; auto.
Qed.

Lemma worker_releases_device_and_socket_witness :
  exists evs,
    fst (_run_stream three_chunks (__init__ None "relay.example" 5000 None) 10)
    = MicOpened :: evs ++ [MicStopped; MicClosed; PaTerminated] /\
    (In Connected evs -> In SocketClosed evs).
Proof.
  refine (proj2 (proj2 (worker_releases_device_and_socket three_chunks
                          (__init__ None "relay.example" 5000 None) 10))
            eq_refl eq_refl _).
  vm_compute. discriminate.
Defined.

(** X13. No audio leaves before the channel is secured: a trace with a
    [Sent] event belongs to a run in which the TLS context was built, the
    connection was made to the sender's host and port and the handshake for
    that host name succeeded, and it starts with the device opened, the
    connection made and secured. *)
Theorem worker_sends_only_over_tls :
  forall (w : Surroundings) (self : LiveStreamSender) (fuel : nat) (data : bytes),
    In (Sent data) (fst (_run_stream w self fuel)) ->
    setup_ok w self /\
    exists rest,
      fst (_run_stream w self fuel) = MicOpened :: Connected :: Secured :: rest.
Proof.
  intros w self fuel data. unfold setup_ok, _run_stream, stream_connected.
  destruct (PyAudio w) as [[]|e]; [|intros []].
  destruct (pa_open w) as [[]|e]; [|intros []].
  destruct (create_default_context w (ca_cert self)) as [[]|e].
  2:{ simpl. intros [H|[H|[H|[H|[]]]]]; discriminate H. }
  destruct (create_connection w (host self) (port self)) as [[]|e].
  2:{ simpl. intros [H|[H|[H|[H|[]]]]]; discriminate H. }
  destruct (wrap_socket w (host self)) as [[]|e].
  2:{ simpl. intros [H|[H|[H|[H|[H|[H|[]]]]]]]; discriminate H. }
  destruct (stream_loop w self fuel 0) as [evs fin].
  intros _. split; [repeat split|].
  destruct fin; simpl; eexists; reflexivity.
Qed.

Lemma worker_sends_only_over_tls_witness :
  setup_ok three_chunks (__init__ None "relay.example" 5000 None) /\
  exists rest,
    fst (_run_stream three_chunks (__init__ None "relay.example" 5000 None) 10)
    = MicOpened :: Connected :: Secured :: rest.
Proof.
  apply (worker_sends_only_over_tls three_chunks
           (__init__ None "relay.example" 5000 None) 10 [Byte.xe8; Byte.x03]).
  vm_compute. auto.
Defined.

(** X14. A run without failures: when setup succeeds, the first [n]
    iterations go through and the flag is found cleared at the next test, the
    worker returns; what it sent is the reducer's output for each chunk read,
    in the order read, and sockets and device are released. *)
Theorem worker_sends_each_conditioned_chunk :
  forall (w : Surroundings) (self : LiveStreamSender)
         (chunk cleaned : nat -> bytes) (n fuel : nat),
    setup_ok w self ->
    (forall i, (i < n)%nat -> iteration_ok w self i (chunk i) (cleaned i)) ->
    running_at w n = false ->
    _run_stream w self (n + S fuel)
    = (MicOpened :: Connected :: Secured ::
         map (fun i => Sent (cleaned i)) (seq 0 n)
         ++ [SecureSocketClosed; SocketClosed; MicStopped; MicClosed; PaTerminated],
       Returned) /\
    payloads (fst (_run_stream w self (n + S fuel))) = map cleaned (seq 0 n).
Proof.
  intros w self chunk cleaned n fuel Hsetup Hok Hstop.
  assert (Hloop : stream_loop w self (n + S fuel) 0
                  = (map (fun i => Sent (cleaned i)) (seq 0 n), Returned)).
  { rewrite (stream_loop_prefix w self chunk cleaned n 0 (S fuel))
      by (intros j Hj; apply Hok; lia).
    simpl Nat.add. rewrite stream_loop_stops by assumption.
    simpl. now rewrite app_nil_r. }
  assert (Hrun : _run_stream w self (n + S fuel)
                 = (MicOpened :: Connected :: Secured ::
                      map (fun i => Sent (cleaned i)) (seq 0 n)
                      ++ [SecureSocketClosed; SocketClosed; MicStopped;
                          MicClosed; PaTerminated],
                    Returned)).
  { rewrite _run_stream_after_setup by (rewrite ?Hloop; auto; discriminate).
    now rewrite Hloop. }
  split; [exact Hrun|].
  rewrite Hrun. simpl. rewrite payloads_app, payloads_sent. simpl.
  now rewrite app_nil_r.
Qed.

Lemma worker_sends_each_conditioned_chunk_witness :
  payloads (fst (_run_stream three_chunks
                   (__init__ None "relay.example" 5000 None) (3 + 1)))
  = [[Byte.xe8; Byte.x03]; [Byte.xe8; Byte.x03]; [Byte.xe8; Byte.x03]].
Proof.
  refine (proj2 (worker_sends_each_conditioned_chunk three_chunks
                   (__init__ None "relay.example" 5000 None)
                   (fun _ => [Byte.xe8; Byte.x03]) (fun _ => [Byte.xe8; Byte.x03])
                   3 0 _ _ eq_refl)).
  - repeat split.
  - intros i Hi. repeat split.
    destruct i as [|[|[|i]]]; try reflexivity. lia.
Defined.

(** X15. A failure inside the loop is final: when setup succeeds, [n]
    iterations go through and in the next one the read, the reducer or the
    send raises, the worker dies with that exception; the [n] chunks sent so
    far stay sent, nothing is retried, and sockets and device are
    released. *)
Theorem worker_dies_on_first_loop_failure :
  forall (w : Surroundings) (self : LiveStreamSender)
         (chunk cleaned : nat -> bytes) (n fuel : nat) (e : exn),
    setup_ok w self ->
    (forall i, (i < n)%nat -> iteration_ok w self i (chunk i) (cleaned i)) ->
    iteration_fails w self n e ->
    _run_stream w self (n + S fuel)
    = (MicOpened :: Connected :: Secured ::
         map (fun i => Sent (cleaned i)) (seq 0 n)
         ++ [SecureSocketClosed; SocketClosed; MicStopped; MicClosed; PaTerminated],
       Uncaught e).
Proof.
  intros w self chunk cleaned n fuel e Hsetup Hok Hfail.
  assert (Hloop : stream_loop w self (n + S fuel) 0
                  = (map (fun i => Sent (cleaned i)) (seq 0 n), Uncaught e)).
  { rewrite (stream_loop_prefix w self chunk cleaned n 0 (S fuel))
      by (intros j Hj; apply Hok; lia).
    simpl Nat.add. rewrite (stream_loop_fails w self fuel n e) by assumption.
    simpl. now rewrite app_nil_r. }
  rewrite _run_stream_after_setup by (rewrite ?Hloop; auto; discriminate).
  now rewrite Hloop.
Qed.

Lemma worker_dies_on_first_loop_failure_witness :
  _run_stream short_third_read (__init__ None "relay.example" 5000 None) (2 + 1)
  = ([MicOpened; Connected; Secured;
      Sent [Byte.xe8; Byte.x03]; Sent [Byte.xe8; Byte.x03];
      SecureSocketClosed; SocketClosed; MicStopped; MicClosed; PaTerminated],
     Uncaught (AudioopError "not a whole number of frames")).
Proof.
  apply (worker_dies_on_first_loop_failure short_third_read
           (__init__ None "relay.example" 5000 None)
           (fun _ => [Byte.xe8; Byte.x03]) (fun _ => [Byte.xe8; Byte.x03]) 2 0).
  - repeat split.
  - intros i Hi. repeat split.
    destruct i as [|[|i]]; try reflexivity. lia.
  - split; [reflexivity|]. right. left. exists [Byte.xe8]. split; reflexivity.
Defined.

(** X16. [stop] returns, clears the flag and leaves the thread table as it
    is (it ends no thread; it joins the current one, if there is one, once).
    A [start] after a [stop] creates and starts a new thread, whatever became
    of the earlier one. *)
Theorem stop_then_start_creates_new_thread :
  forall st : Session,
    let st1 := exec stop st in
    let st2 := exec start st1 in
    eval stop st = Ok tt /\
    _running (fst st1) = false /\
    threads (snd st1) = threads (snd st) /\
    joins (snd st1)
      = joins (snd st)
        ++ match _thread (fst st) with Some t => [t] | None => [] end /\
    threads (snd st2) = threads (snd st) ++ [Started] /\
    _thread (fst st2) = Some (List.length (threads (snd st))) /\
    _running (fst st2) = true.
Proof.
  intros [self rt] st1 st2.
  assert (Hstop : stop (self, rt)
                  = (Ok tt,
                     (set_running false self,
                      match _thread self with
                      | Some t => Thread_join t rt
                      | None => rt
                      end))).
  { unfold stop, bind, modify, get, ret. simpl.
    destruct (_thread self); reflexivity. }
  unfold st2, st1, exec, eval. rewrite Hstop. cbn [fst snd].
  rewrite start_when_idle by reflexivity. cbn [fst snd].
  destruct (_thread self); simpl; rewrite ?app_nil_r; repeat split.
Qed.

End StreamTraceProofs.

(* ===================================================================== *)
(** * Properties of offline_player.py *)
(* ===================================================================== *)

Module OfflinePlayerProofs.

Import OfflinePlayer OfflineLog.

Lemma replay_app (log1 log2 : list sound_call) :
  forall cur,
    replay cur (log1 ++ log2)
    = match replay cur log1 with
      | Some cur' => replay cur' log2
      | None => None
      end.
Proof.
  induction log1 as [|c log1 IH]; intros cur; simpl; [reflexivity|].
  destruct c as [p|p]; destruct cur as [q|]; try reflexivity.
  - destruct (q =? p)%string; [apply IH | reflexivity].
  - apply IH.
Qed.

Lemma stop_consistent (self : OfflineAzaanPlayer) :
  consistent self ->
  consistent (exec stop self) /\ current_sound (exec stop self) = None /\
  tracks (exec stop self) = tracks self /\ eval stop self = Ok tt.
Proof.
  unfold consistent, exec, eval, stop, bind, get, modify, ret. simpl.
  intros H. destruct (current_sound self) as [snd|] eqn:E; simpl.
  - rewrite replay_app, H. simpl. rewrite String.eqb_refl. auto.
  - rewrite E. auto.
Qed.

(** What [play] does, case by case. *)
Lemma play_cases (fs : Assets) (prayer_name : string) (self : OfflineAzaanPlayer) :
  let not_found :=
    FileNotFoundError ("Offline track not found for prayer: " ++ prayer_name) in
  match dict_get (tracks self) (lower prayer_name) with
  | None => play fs prayer_name self = (Raise not_found, self)
  | Some path =>
      if path_exists fs path
      then play fs prayer_name self
           = (Ok tt,
              if sound_load fs path
              then mkOfflineAzaanPlayer (tracks self) (Some path)
                     (calls (exec stop self) ++ [SoundPlay path])
              else mkOfflineAzaanPlayer (tracks self) None
                     (calls (exec stop self)))
      else play fs prayer_name self = (Raise not_found, self)
  end.
Proof.
  unfold play, exec, stop, bind, get, raise, modify, ret. simpl.
  destruct (dict_get (tracks self) (lower prayer_name)) as [path|];
    [|reflexivity].
  destruct (path_exists fs path); [|reflexivity]. simpl.
  destruct (current_sound self); simpl; destruct (sound_load fs path); reflexivity.
Qed.

(** X17. The player never has two sounds going: if its call log is an
    alternation of starting a sound when none plays and stopping the one that
    plays, ending with [current_sound], then it still is after [play]
    (whether it raises or not) and after [stop]. *)
Theorem player_log_stays_consistent :
  forall (fs : Assets) (prayer_name : string) (self : OfflineAzaanPlayer),
    consistent self ->
    consistent (exec (play fs prayer_name) self) /\
    consistent (exec stop self).
Proof.
  intros fs prayer_name self H.
  destruct (stop_consistent self H) as (Hs & Hnone & _ & _).
  split; [|exact Hs].
  generalize (play_cases fs prayer_name self). cbv zeta.
  destruct (dict_get (tracks self) (lower prayer_name)) as [path|].
  - destruct (path_exists fs path).
    + unfold exec at 3. intros ->. cbn [snd].
      unfold consistent in *. rewrite Hnone in Hs.
      destruct (sound_load fs path); simpl.
      * now rewrite replay_app, Hs.
      * exact Hs.
    + unfold exec at 1. intros ->. exact H.
  - unfold exec at 1. intros ->. exact H.
Qed.

Lemma player_log_stays_consistent_witness :
  consistent (exec (play (mkAssets (fun _ => true) (fun _ => true)) "Isha")
                (exec (play (mkAssets (fun _ => true) (fun _ => true)) "fajr")
                   (__init__ "assets"))).
Proof.
  apply player_log_stays_consistent.
  apply player_log_stays_consistent.
  reflexivity.
Defined.






End OfflinePlayerProofs.

(* ===================================================================== *)
(** * Further properties of main.py *)
(* ===================================================================== *)

Module BroadcastProofs.

Import Main MainProofs Broadcast.

(** [_update_masjid_live] changes nothing in the application; it returns,
    or passes on an exception of the registry call that is neither an
    [AuthError] nor a [MasjidError]. *)
Lemma _update_masjid_live_cases (env : Env) (masjid_id : string) (is_live : bool)
    (a : App) :
  _update_masjid_live env masjid_id is_live a = (Ok tt, a) \/
  exists e,
    _update_masjid_live env masjid_id is_live a = (Raise e, a) /\
    set_masjid_live env masjid_id is_live = Raise e /\
    swallowed e = false /\ masjid_id <> "" /\ logged_in a = true.
Proof.
  unfold _update_masjid_live, bind, get, ret, try_except, lift.
  destruct (String.eqb_spec masjid_id "") as [E|E]; [now left|].
  destruct (logged_in a) eqn:Hlog; simpl; [|now left].
  destruct (set_masjid_live env masjid_id is_live) as [[]|e] eqn:Hcall;
    [now left|].
  destruct e; simpl; try (now left); right; eexists; repeat split; auto.
Qed.












Lemma stop_azaan_result (env : Env) (masjid_id : string) (a : App) :
  stop_azaan env masjid_id a
  = (fst (_update_masjid_live env (strip masjid_id) false (stopped_app a)),
     stopped_app a).
Proof.
  assert (Hupd : forall x,
             _update_masjid_live env (strip masjid_id) false x
             = (fst (_update_masjid_live env (strip masjid_id) false x), x)).
  { intros x.
    destruct (_update_masjid_live_cases env (strip masjid_id) false x)
      as [H|(e & H & _)]; now rewrite H. }
  unfold stopped_app. destruct a as [role status player snd rcv logged rt].
  unfold stop_azaan, bind, get, ret, modify, on_sender.
  unfold StreamSender.stop, bind, modify, get, ret.
  destruct snd as [[h p ca ch r c red run [t|]]|];
    cbn -[_update_masjid_live strip]; apply Hupd.
Qed.

(** X24. [stop_azaan] always sets the status "Stopped" and ends no thread.
    With a sender it clears the sender's flag and joins its thread, if it has
    one, once; without a sender it changes nothing else.  It returns unless
    the registry call raises something other than [AuthError] and
    [MasjidError], which it passes on. *)
Theorem stop_azaan_clears_flag_and_sets_status :
  forall (env : Env) (masjid_id : string) (a : App),
    let final := exec (stop_azaan env masjid_id) a in
    stream_status final = "Stopped" /\
    StreamSender.threads (runtime final) = StreamSender.threads (runtime a) /\
    sender final = option_map (StreamSender.set_running false) (sender a) /\
    StreamSender.joins (runtime final)
      = StreamSender.joins (runtime a)
        ++ match sender a with
           | Some s => match StreamSender._thread s with
                       | Some t => [t]
                       | None => []
                       end
           | None => []
           end /\
    (eval (stop_azaan env masjid_id) a = Ok tt \/
     exists e,
       eval (stop_azaan env masjid_id) a = Raise e /\
       swallowed e = false /\
       set_masjid_live env (strip masjid_id) false = Raise e).
Proof.
  intros env masjid_id a final.
  unfold final, exec, eval. rewrite stop_azaan_result. cbn [fst snd].
  split; [reflexivity|]. split; [|split; [|split]].
  - unfold stopped_app. destruct (sender a) as [s|]; [|reflexivity].
    now destruct (StreamSender._thread s).
  - unfold stopped_app. destruct (sender a) as [s|] eqn:Hs; [reflexivity|].
    simpl. exact Hs.
  - unfold stopped_app. destruct (sender a) as [s|];
      [|simpl; now rewrite app_nil_r].
    destruct (StreamSender._thread s); simpl; now rewrite ?app_nil_r.
  - destruct (_update_masjid_live_cases env (strip masjid_id) false (stopped_app a))
      as [H|(e & H & Hcall & Hsw & _)]; rewrite H; [now left|].
    right. exists e. auto.
Qed.

End BroadcastProofs.

(* ===================================================================== *)
(** * Properties of masjid.py *)
(* ===================================================================== *)

Module MasjidProofs.

Import Priority PyVal Masjid.

Lemma value_of_exported (p : MasjidPriority) :
  value_of_item (of_dict (to_dict p)) = Ok (encoded p).
Proof. destruct p as [z s [|]]; reflexivity. Qed.

Lemma raw_of_exported (p : MasjidPriority) :
  raw_of_item (of_dict (to_dict p)) = Ok (encoded p).
Proof. destruct p as [z s [|]]; reflexivity. Qed.

Lemma for_each_exported (f : pyval -> result pyval) (l : list MasjidPriority) :
  (forall p, f (of_dict (to_dict p)) = Ok (encoded p)) ->
  for_each f (exported l) = Ok (map encoded l).
Proof.
  intros Hf. unfold exported.
  induction l as [|p l IH]; [reflexivity|].
  cbn [map for_each]. rewrite Hf. unfold exported in IH. now rewrite IH.
Qed.

Lemma decode_encoded (depth : nat) (p : MasjidPriority) :
  _decode_value (S (S depth)) (encoded p) = Ok (of_dict (to_dict p)).
Proof. destruct p as [z s b]. reflexivity. Qed.

Lemma decode_all_encoded (depth : nat) (l : list MasjidPriority) :
  for_each (_decode_value (S (S depth))) (map encoded l) = Ok (exported l).
Proof.
  induction l as [|p l IH]; [reflexivity|].
  cbn [map for_each]. rewrite decode_encoded.
  unfold exported in *. cbn [map]. now rewrite IH.
Qed.

Lemma decode_priority_payload (depth : nat) (l : list MasjidPriority) :
  _decode_document (S (S (S depth))) (priority_payload (map encoded l))
  = Ok (PDict [("priority_list", PList (exported l))]).
Proof.
  unfold _decode_document, priority_payload.
  cbn [get_default lookup String.eqb Ascii.eqb Bool.eqb].
  unfold for_each_item. cbn [for_each snd fst].
  change (_decode_value (S (S (S depth)))
            (PDict [("arrayValue", PDict [("values", PList (map encoded l))])]))
    with (match for_each (_decode_value (S (S depth))) (map encoded l) with
          | Ok out => Ok (PList out)
          | Raise e => Raise e
          end).
  now rewrite decode_all_encoded.
Qed.

(** X25. Round trip of the priority list through the store format: for
    every registry, the items [as_dicts] exports are all accepted by the
    encoding loop of [update_user_priorities], and [_decode_document] (with
    room for three nested calls) reads the payload so built back as the
    document whose [priority_list] is the exported list, item for item. *)
Theorem priority_list_survives_store_format :
  forall (m : PriorityManager) (depth : nat),
    (3 <= depth)%nat ->
    exists items values,
      eval as_dicts m = Ok items /\
      for_each value_of_item (map of_dict items) = Ok values /\
      _decode_document depth (priority_payload values)
      = Ok (PDict [("priority_list", PList (map of_dict items))]).
Proof.
  intros m depth Hd.
  exists (map to_dict (sorted (priority_list m))),
         (map encoded (sorted (priority_list m))).
  split; [reflexivity|]. split.
  - apply (for_each_exported value_of_item), value_of_exported.
  - destruct depth as [|[|[|depth]]]; try lia. apply decode_priority_payload.
Qed.

Lemma priority_list_survives_store_format_witness :
  exists items values,
    eval as_dicts registry_AB = Ok items /\
    for_each value_of_item (map of_dict items) = Ok values /\
    _decode_document 1000 (priority_payload values)
    = Ok (PDict [("priority_list", PList (map of_dict items))]).
Proof.
  apply (priority_list_survives_store_format registry_AB 1000). lia.
Defined.

(** X26. The two encoders of masjid.py.  On an item that carries
    [masjid_id] and [priority] the loop of [_to_priority_raw] and the loop of
    [update_user_priorities] build the same value or raise the same
    exception.  On a dict without one of the two keys
    [update_user_priorities] raises [KeyError], while [_to_priority_raw]
    builds a value from the defaults whenever the priority it finds, or the
    default 0, converts. *)
Theorem encoders_agree_on_complete_items :
  forall d : list (string * pyval),
    (forall mid p,
       lookup d "masjid_id" = Some mid -> lookup d "priority" = Some p ->
       raw_of_item (PDict d) = value_of_item (PDict d)) /\
    (lookup d "masjid_id" = None \/ lookup d "priority" = None ->
     value_of_item (PDict d) = Raise KeyError /\
     forall z,
       int_of (get_default d "priority" (PInt 0)) = Ok z ->
       raw_of_item (PDict d)
       = Ok (priority_map (get_default d "masjid_id" (PStr "")) z
               (truthy (get_default d "enabled" (PBool true))))).
Proof.
  intros d. split.
  - intros mid p Hmid Hp. unfold raw_of_item, value_of_item, get_default.
    now rewrite Hmid, Hp.
  - intros H. split.
    + unfold value_of_item. destruct H as [H|H]; rewrite H; [reflexivity|].
      now destruct (lookup d "masjid_id").
    + intros z Hz. unfold raw_of_item. now rewrite Hz.
Qed.

Lemma encoders_agree_on_complete_items_witness :
  raw_of_item (PDict [("masjid_id", PStr "m1"); ("priority", PStr "7")])
  = value_of_item (PDict [("masjid_id", PStr "m1"); ("priority", PStr "7")]) /\
  value_of_item (PDict [("masjid_id", PStr "m1")]) = Raise KeyError.
Proof.
  split.
  - apply (proj1 (encoders_agree_on_complete_items
                    [("masjid_id", PStr "m1"); ("priority", PStr "7")])
             (PStr "m1") (PStr "7")); reflexivity.
  - apply (proj2 (encoders_agree_on_complete_items [("masjid_id", PStr "m1")])).
    right. reflexivity.
Defined.

End MasjidProofs.

(* ===================================================================== *)
(** * Properties of main.py: settings and notifications *)
(* ===================================================================== *)

Module ShellProofs.

Import PyVal Main MainProofs Shell.




(** ** [LiveAzaanApp.set_priority] *)








End ShellProofs.

(* ===================================================================== *)
(** * Setting a priority, then asking *)
(* ===================================================================== *)

Module RegistryLookupProofs.

Import Priority PriorityProofs.

Lemma in_filter_same_id (mid : string) (p : MasjidPriority)
    (l : list MasjidPriority) :
  In p l -> masjid_id p = mid ->
  In p (filter (fun q => (masjid_id q =? mid)%string) l).
Proof.
  intros Hin Hid. apply filter_In. split; [assumption|].
  now apply String.eqb_eq.
Qed.

(** X30. Upsert, then lookup: whatever the registry held, after
    [set_priority mid prio en] the query with [mid] as the only live id
    answers [mid] when the entry was set enabled and nothing when it was set
    disabled. *)
Theorem set_priority_then_query :
  forall (m : PriorityManager) (mid : string) (prio : Z) (en : bool),
    eval (highest_priority_live [mid]) (exec (set_priority mid prio en) m)
    = Ok (if en then Some mid else None).
Proof.
  intros m mid prio en.
  set (m' := exec (set_priority mid prio en) m).
  assert (Hsingle := set_priority_single mid prio en m). fold m' in Hsingle.
  assert (Hnew : In (mkMasjidPriority prio mid en) (priority_list m')).
  { eapply Permutation_in;
      [apply Permutation_sym, set_priority_perm | now left]. }
  unfold eval, highest_priority_live, bind, get, ret. cbn [fst].
  generalize (highest_loop_first [mid] (sorted (priority_list m'))).
  destruct (highest_loop [mid] (sorted (priority_list m'))) as [g|].
  - intros (before & p & after & Hs & Hg & Hq & _).
    apply qualifies_iff in Hq. destruct Hq as [Hen Hlive].
    destruct Hlive as [Hid|[]].
    assert (Hin : In p (priority_list m')).
    { eapply Permutation_in; [apply sorted_perm|]. rewrite Hs.
      apply in_or_app. right. now left. }
    apply (in_filter_same_id mid) in Hin; [|now symmetry].
    rewrite Hsingle in Hin. destruct Hin as [<-|[]]. simpl in *.
    subst. reflexivity.
  - intros Hall. rewrite Forall_forall in Hall.
    assert (Hq : qualifies [mid] (mkMasjidPriority prio mid en) = false).
    { apply Hall. eapply Permutation_in;
        [apply Permutation_sym, sorted_perm | exact Hnew]. }
    unfold qualifies, contains in Hq. simpl in Hq.
    rewrite String.eqb_refl in Hq. simpl in Hq.
    rewrite andb_true_r in Hq. now rewrite Hq.
Qed.

End RegistryLookupProofs.
